(** * dbr: loading the rows of a SELECT into Go values

    A shallow embedding of [select_load.go] (package [dbr]): the three
    loaders [LoadAll], [LoadOne] and [LoadValue] of [*SelectBuilder].

    The loaders are written against Go's [reflect] package, a row cursor
    ([*sql.Rows]) and an event sink.  Memory is a store of variables, a
    pointer is the address of a variable or of a field inside one, and a
    loader is a state-passing computation over the store and over the log
    of the calls it makes to its collaborators. *)

From Stdlib Require Import ZArith Lia.
From stdpp Require Import base option list gmap strings.

#[local] Set Warnings "-register-all".

(** ** Go types and values, as [reflect] sees them *)

Module reflect.

(** [reflect.Kind]. *)
Inductive Kind :=
| Invalid
| Bool | Int | Int8 | Int16 | Int32 | Int64
| Uint | Uint8 | Uint16 | Uint32 | Uint64 | Uintptr
| Float32 | Float64 | Complex64 | Complex128
| Array | Chan | Func | Interface | Map | Ptr | Slice
| String | Struct | UnsafePointer.

#[global] Instance Kind_eq_dec : EqDecision Kind.
Proof. solve_decision. Defined.

(** The types without structure of their own. *)
Inductive basic :=
| bool_ | int_ | int8_ | int16_ | int32_ | int64_
| uint_ | uint8_ | uint16_ | uint32_ | uint64_ | uintptr_
| float32_ | float64_ | complex64_ | complex128_
| string_ | unsafe_Pointer.

Definition basic_Kind (b : basic) : Kind :=
  match b with
  | bool_ => Bool | int_ => Int | int8_ => Int8 | int16_ => Int16
  | int32_ => Int32 | int64_ => Int64
  | uint_ => Uint | uint8_ => Uint8 | uint16_ => Uint16
  | uint32_ => Uint32 | uint64_ => Uint64 | uintptr_ => Uintptr
  | float32_ => Float32 | float64_ => Float64
  | complex64_ => Complex64 | complex128_ => Complex128
  | string_ => String | unsafe_Pointer => UnsafePointer
  end.

(** [reflect.Type], with [reflect.StructField] for the fields of a
    structure: the name, the package path (empty for an exported field),
    the value of the [db] key of the tag, and the type. *)
Inductive type :=
| TBasic (b : basic)
| TPtr (elem : type)
| TSlice (elem : type)
| TArray (len : nat) (elem : type)
| TMap (key elem : type)
| TChan (elem : type)
| TFunc
| TInterface
| TStruct (fields : list StructField)
with StructField :=
| Field (Name : string) (PkgPath : string) (Tag_db : string) (Type_ : type).

Definition Name (f : StructField) : string :=
  match f with Field n _ _ _ => n end.
Definition PkgPath (f : StructField) : string :=
  match f with Field _ p _ _ => p end.
Definition Tag_db (f : StructField) : string :=
  match f with Field _ _ t _ => t end.
Definition Type_ (f : StructField) : type :=
  match f with Field _ _ _ t => t end.

(** [Type.Kind()]. *)
Definition Kind_of (t : type) : Kind :=
  match t with
  | TBasic b => basic_Kind b
  | TPtr _ => Ptr
  | TSlice _ => Slice
  | TArray _ _ => Array
  | TMap _ _ => Map
  | TChan _ => Chan
  | TFunc => Func
  | TInterface => Interface
  | TStruct _ => Struct
  end.

(** [Type.Elem()]: the element type of an array, channel, map, pointer or
    slice; it panics on every other kind ([None]). *)
Definition Elem (t : type) : option type :=
  match t with
  | TPtr e | TSlice e | TArray _ e | TMap _ e | TChan e => Some e
  | _ => None
  end.

End reflect.

Abbreviation type := reflect.type.
Abbreviation TPtr := reflect.TPtr.
Abbreviation TSlice := reflect.TSlice.
Abbreviation TMap := reflect.TMap.
Abbreviation TStruct := reflect.TStruct.
Abbreviation TBasic := reflect.TBasic.

(** Addresses of variables. *)
Abbreviation loc := nat.

(** What a database driver hands over for one column of one row
    ([driver.Value], without floats and times). *)
Inductive datum :=
| DNull
| DInt (z : Z)
| DBool (b : bool)
| DString (s : string)
| DBytes (bs : list Z).

(** The contents of a variable.  A pointer is the address of a variable
    followed by the path of field indices to the part it points at; a map
    is a reference to the variable holding its entries; a slice is seen
    through its length, as the list of its elements. *)
Inductive value :=
| VNil
| VData (d : datum)
| VPtr (l : loc) (path : list nat)
| VDiscard
| VSlice (elems : list value)
| VMapRef (l : loc)
| VMapObj (entries : list (value * value))
| VStruct (fields : list value).

(** [VDiscard] is the address of the package's throw-away variable, the
    scan target of a column that no field wants: what is written through
    it is never read. *)

(** An [interface{}]: nil, or a value with its dynamic type. *)
Inductive iface :=
| nil_iface
| Iface (t : type) (v : value).

(** The zero value of a type, what [reflect.New] allocates. *)
Fixpoint zero (t : type) : value :=
  match t with
  | reflect.TBasic reflect.bool_ => VData (DBool false)
  | reflect.TBasic reflect.string_ => VData (DString "")
  | reflect.TBasic reflect.unsafe_Pointer => VNil
  | reflect.TBasic _ => VData (DInt 0)
  | reflect.TPtr _ | reflect.TMap _ _ | reflect.TChan _
  | reflect.TFunc | reflect.TInterface => VNil
  | reflect.TSlice _ => VSlice []
  | reflect.TArray n e => VStruct (replicate n (zero e))
  | reflect.TStruct fs =>
      VStruct (map (fun f => match f with reflect.Field _ _ _ ft => zero ft end) fs)
  end.

(** ** The store *)

Abbreviation heap := (list value).

(** The part of [v] at [path]. *)
Fixpoint part (path : list nat) (v : value) : option value :=
  match path with
  | [] => Some v
  | j :: p =>
      match v with
      | VStruct fs => fs !! j ≫= part p
      | _ => None
      end
  end.

(** [v] with the part at [path] replaced by [new]. *)
Fixpoint update (path : list nat) (new : value) (v : value) : value :=
  match path with
  | [] => new
  | j :: p =>
      match v with
      | VStruct fs => VStruct (alter (update p new) j fs)
      | _ => v
      end
  end.

Definition read (h : heap) (l : loc) (path : list nat) : option value :=
  h !! l ≫= part path.

Definition write (h : heap) (l : loc) (path : list nat) (new : value) : heap :=
  alter (update path new) l h.

(** ** Errors, events and the state of a call *)

(** The [kvs] of the event sink, a [map[string]string]. *)
Abbreviation kvs := (gmap string string).

(** Go's [error] values: the package's [ErrNotFound], the errors of the
    collaborators, and the errors that went through the event sink. *)
Inductive error :=
| ErrNotFound
| ErrCollaborator (msg : string)
| UnmappedFieldError (field : string)
| DescriptorError (column : string)
| FieldAccessError (path : list nat)
| Tagged (eventName : string) (kv : kvs) (cause : error).

(** A Go result [(A, error)]. *)
Inductive result (A : Type) :=
| Ok (a : A)
| Fail (err : error).
Arguments Ok {A} a.
Arguments Fail {A} err.

(** The calls a loader makes to its collaborators, in the order made. *)
Inductive event :=
| Query_ (sql : string)
| Columns_
| Next_ (more : bool)
| Scan_ (dest : list iface) (ok : bool)
| Err_
| Close_
| New_ (l : loc)
| Set_ (l : loc)
| EventErr_ (eventName : string) (err : error)
| EventErrKv_ (eventName : string) (err : error) (kv : kvs)
| TimingKv_ (eventName : string) (kv : kvs).

Record World := mkWorld { mem : heap; log : list event }.

(** What a statement does: it goes on to the next one with a value, leaves
    the function through [return], or panics. *)
Inductive flow (R A : Type) :=
| Step (a : A)
| Return (r : R)
| Panic (msg : string).
Arguments Step {R A} a.
Arguments Return {R A} r.
Arguments Panic {R A} msg.

Definition Go (R A : Type) : Type := World -> flow R A * World.

Definition ret {R A} (a : A) : Go R A := fun w => (Step a, w).

Definition bind {R A B} (m : Go R A) (k : A -> Go R B) : Go R B :=
  fun w =>
    match m w with
    | (Step a, w') => k a w'
    | (Return r, w') => (Return r, w')
    | (Panic msg, w') => (Panic msg, w')
    end.

Definition return_ {R A} (r : R) : Go R A := fun w => (Return r, w).
Definition panic {R A} (msg : string) : Go R A := fun w => (Panic msg, w).

Declare Scope go_scope.
Delimit Scope go_scope with go.
Notation "x <- c1 ;; c2" := (bind c1 (fun x => c2))
  (at level 100, c1 at next level, c2 at level 200, right associativity) : go_scope.
Notation "c1 ;; c2" := (bind c1 (fun _ => c2))
  (at level 100, c2 at level 200, right associativity) : go_scope.
#[local] Open Scope go_scope.

(** [v, err := f(); if err != nil { ... return }]: the handler leaves the
    function. *)
Definition check {R A} (r : result A) (handler : error -> Go R A) : Go R A :=
  match r with
  | Ok a => ret a
  | Fail err => handler err
  end.

(** [defer f()]: [f] runs when the rest of the function is left, by a
    return or by a panic. *)
Definition defer {R A} (f : World -> World) (rest : Go R A) : Go R A :=
  fun w => let '(r, w') := rest w in (r, f w').

Definition emit {R} (e : event) : Go R unit :=
  fun w => (Step tt, mkWorld (mem w) (log w ++ [e])).

Definition emitted (e : event) (w : World) : World :=
  mkWorld (mem w) (log w ++ [e]).

Definition get_mem {R} : Go R heap := fun w => (Step (mem w), w).
Definition put_mem {R} (h : heap) : Go R unit :=
  fun w => (Step tt, mkWorld h (log w)).

(** How a call of a loader ends. *)
Inductive outcome (R : Type) :=
| Returned (r : R)
| Panicked (msg : string).
Arguments Returned {R} r.
Arguments Panicked {R} msg.

Definition call {R} (body : Go R R) (w : World) : outcome R * World :=
  match body w with
  | (Step r, w') | (Return r, w') => (Returned r, w')
  | (Panic msg, w') => (Panicked msg, w')
  end.

(** ** [reflect.Value] *)

(** A [reflect.Value]: the zero Value, a value held in an interface (not
    addressable), or a variable, or part of one, reached through a pointer
    (addressable). *)
Inductive Value :=
| Value_zero
| Held (t : type) (v : value)
| Var (t : type) (l : loc) (path : list nat).

Definition reflect_ValueOf (i : iface) : Value :=
  match i with
  | nil_iface => Value_zero
  | Iface t v => Held t v
  end.

(** [Value.Type()]; it panics on the zero Value ([None]). *)
Definition Value_Type (v : Value) : option type :=
  match v with
  | Value_zero => None
  | Held t _ | Var t _ _ => Some t
  end.

(** [Value.Kind()]: [Invalid] for the zero Value. *)
Definition Value_Kind (v : Value) : reflect.Kind :=
  match v with
  | Value_zero => reflect.Invalid
  | Held t _ | Var t _ _ => reflect.Kind_of t
  end.

(** What a Value holds in the store [h]. *)
Definition Value_load (h : heap) (v : Value) : option value :=
  match v with
  | Value_zero => None
  | Held _ x => Some x
  | Var _ l path => read h l path
  end.

(** [Value.Elem()] on a pointer: the variable pointed at, the zero Value
    for a nil pointer. *)
Definition Value_Elem (h : heap) (v : Value) : Value :=
  match Value_Type v, Value_load h v with
  | Some (reflect.TPtr t), Some (VPtr l path) => Var t l path
  | _, _ => Value_zero
  end.

(** [reflect.Indirect]: [v] itself unless [v] is a pointer. *)
Definition reflect_Indirect {R} (v : Value) : Go R Value :=
  if decide (Value_Kind v = reflect.Ptr)
  then h <- get_mem ;; ret (Value_Elem h v)
  else ret v.

Definition must {R A} (o : option A) (msg : string) : Go R A :=
  match o with
  | Some a => ret a
  | None => panic msg
  end.

(** [reflect.New(t)]: a pointer to a new variable holding the zero value
    of [t]. *)
Definition reflect_New {R} (t : type) : Go R Value :=
  fun w =>
    let l := length (mem w) in
    (Step (Held (reflect.TPtr t) (VPtr l [])),
     mkWorld (mem w ++ [zero t]) (log w ++ [New_ l])).

(** [reflect.Append(s, x)]: a new slice Value, the elements of [s] followed
    by [x]; what [s] refers to is left as it is. *)
Definition reflect_Append {R} (s x : Value) : Go R Value :=
  h <- get_mem ;;
  match Value_Type s, Value_load h s, Value_load h x with
  | Some (reflect.TSlice e), Some (VSlice elems), Some xv =>
      ret (Held (reflect.TSlice e) (VSlice (elems ++ [xv])))
  | _, _, _ => panic "reflect: call of reflect.Append on a value that is not a slice"
  end.

(** [v.Set(x)]: [v] has to be addressable. *)
Definition Value_Set {R} (v x : Value) : Go R unit :=
  h <- get_mem ;;
  match v, Value_load h x with
  | Var _ l path, Some xv => put_mem (write h l path xv) ;; emit (Set_ l)
  | _, _ => panic "reflect: reflect.Value.Set using unaddressable value"
  end.

(** ** The row cursor *)

Abbreviation row := (list datum).

(** A [*sql.Rows]: the column names (or the error of [Columns]), the rows
    [Next] will yield, and what [Err] reports once [Next] has said no. *)
Record Rows := mkRows {
  Columns : result (list string);
  yields : list row;
  Err : option error;
}.

Definition rows_Columns {R} (rows : Rows) : Go R (result (list string)) :=
  emit Columns_ ;; ret (Columns rows).

Definition rows_Err {R} (rows : Rows) : Go R (option error) :=
  emit Err_ ;; ret (Err rows).

Definition rows_Close (w : World) : World := emitted Close_ w.

(** [for rows.Next() { body }], the loop state passed along. *)
Fixpoint for_Next {R S} (pending : list row) (body : row -> S -> Go R S)
    (s : S) : Go R S :=
  match pending with
  | [] => emit (Next_ false) ;; ret s
  | r :: pending' =>
      emit (Next_ true) ;;
      s' <- body r s ;;
      for_Next pending' body s'
  end.

(** The field map: for each column, in column order, the path of field
    indices to its field inside a record, [None] for a column that goes
    nowhere (the Go [[][]int]). *)
Abbreviation fieldMap := (list (option (list nat))).

(** ** What the file calls and does not define *)

(** [Interpolate], [calculateFieldMap] and [holderFor] of package [dbr],
    and the conversion [database/sql] applies between a driver value and a
    destination of a given type. *)
Class Collaborators := {
  Interpolate : string -> list iface -> result string;
  calculateFieldMap : type -> list string -> bool -> result fieldMap;
  holderFor : Value -> fieldMap -> result (list iface);
  convertAssign : type -> datum -> result value;
}.

Definition errNilPtr : error := ErrCollaborator "destination pointer is nil".
Definition errNotPointer : error := ErrCollaborator "destination not a pointer".
Definition errArity : error :=
  ErrCollaborator "sql: wrong number of destination arguments in Scan".

Section Scan.
Context {pkg : Collaborators}.

(** One column into one destination. *)
Definition convertAssignTo (dest : iface) (src : datum) (h : heap) : result heap :=
  match dest with
  | Iface (reflect.TPtr _) VDiscard => Ok h
  | Iface (reflect.TPtr t) (VPtr l path) =>
      match convertAssign t src with
      | Ok v => Ok (write h l path v)
      | Fail err => Fail err
      end
  | Iface (reflect.TPtr _) _ => Fail errNilPtr
  | _ => Fail errNotPointer
  end.

(** The columns from left to right; what was written before a failure
    stays written. *)
Fixpoint convertAssignRow (dest : list iface) (r : row) (h : heap)
    : heap * option error :=
  match dest, r with
  | d :: dest', sv :: r' =>
      match convertAssignTo d sv h with
      | Ok h' => convertAssignRow dest' r' h'
      | Fail err => (h, Some err)
      end
  | _, _ => (h, None)
  end.

(** [Rows.Scan] on the current row [r]. *)
Definition scan (r : row) (dest : list iface) (h : heap) : heap * option error :=
  if decide (length dest = length r)
  then convertAssignRow dest r h
  else (h, Some errArity).

Definition rows_Scan {R} (r : row) (dest : list iface) : Go R (option error) :=
  fun w =>
    let '(h, err) := scan r dest (mem w) in
    (Step err, mkWorld h (log w ++ [Scan_ dest (bool_decide (err = None))])).
End Scan.

(** ** The builder and the event sink *)

(** A [*SelectBuilder], as far as the loaders use it: what [ToSql] returns
    and what the runner answers to a query. *)
Record SelectBuilder := mkSelectBuilder {
  ToSql : string * list iface;
  runner_Query : string -> result Rows;
}.

Definition Query {R} (b : SelectBuilder) (fullSql : string) : Go R (result Rows) :=
  emit (Query_ fullSql) ;; ret (runner_Query b fullSql).

(** Modelled from the spec: [EventErr], [EventErrKv] and [TimingKv], the
    methods of the event sink the builder embeds, which are not in
    [select_load.go].  The sink is notified with the operation name, the
    error and the key-value context, and the error comes back tagged with
    the operation identifier and that context. *)
Definition EventErr {R} (eventName : string) (err : error) : Go R error :=
  emit (EventErr_ eventName err) ;; ret (Tagged eventName ∅ err).

Definition EventErrKv {R} (eventName : string) (err : error) (kv : kvs)
    : Go R error :=
  emit (EventErrKv_ eventName err kv) ;; ret (Tagged eventName kv err).

Definition TimingKv (eventName : string) (kv : kvs) (w : World) : World :=
  emitted (TimingKv_ eventName kv) w.

(** ** The loaders *)

Section Loaders.
Context {pkg : Collaborators}.

(** The body of the loop of [LoadAll] over a slice: the state is
    [sliceValue] and [numberOfRowsReturned]. *)
Definition LoadAll_row (fullSql : string) (recordType : type)
    (fieldMap : fieldMap) (r : row) (s : Value * nat)
    : Go (nat * option error) (Value * nat) :=
  let '(sliceValue, numberOfRowsReturned) := s in
  pointerToNewRecord <- reflect_New recordType ;;
  newRecord <- reflect_Indirect pointerToNewRecord ;;
  holder <- check (holderFor newRecord fieldMap) (fun err =>
    e <- EventErrKv "dbr.select.load_all.holderFor" err {["sql" := fullSql]} ;;
    return_ (numberOfRowsReturned, Some e)) ;;
  err <- rows_Scan r holder ;;
  match err with
  | Some err =>
      e <- EventErrKv "dbr.select.load_all.scan" err {["sql" := fullSql]} ;;
      return_ (numberOfRowsReturned, Some e)
  | None =>
      sliceValue <- reflect_Append sliceValue pointerToNewRecord ;;
      ret (sliceValue, numberOfRowsReturned + 1)
  end.

(** The head of [LoadAll]: "Validate the dest, and extract the
    reflection values we need", which are [valueOfDest], [kindOfDest]
    and [recordType]. *)
Definition LoadAll_dest {R} (dest : iface) : Go R (Value * reflect.Kind * type) :=
  let valueOfDest := reflect_ValueOf dest in
  let kindOfDest := Value_Kind valueOfDest in
  vk <- (if decide (kindOfDest = reflect.Ptr) then
           valueOfDest <- reflect_Indirect valueOfDest ;;
           ret (valueOfDest, Value_Kind valueOfDest)
         else if decide (kindOfDest = reflect.Map) then
           ret (valueOfDest, kindOfDest)
         else
           panic "invalid type passed to LoadAll. Need a map or addr of slice") ;;
  let '(valueOfDest, kindOfDest) := vk in
  if negb (bool_decide (kindOfDest = reflect.Map)
           || bool_decide (kindOfDest = reflect.Slice)) then
    panic "invalid type passed to LoadAll. Need a map or addr of slice"
  else
  recordType <- must (Value_Type valueOfDest ≫= reflect.Elem)
                     "reflect: Elem of invalid type" ;;
  if negb (bool_decide (reflect.Kind_of recordType = reflect.Ptr)) then
    panic "Elements need to be pointers to structures"
  else
  recordType <- must (reflect.Elem recordType) "reflect: Elem of invalid type" ;;
  if negb (bool_decide (reflect.Kind_of recordType = reflect.Struct)) then
    panic "Elements need to be pointers to structures"
  else
  ret (valueOfDest, kindOfDest, recordType).

(** [func (b *SelectBuilder) LoadAll(dest interface{}) (int, error)].
    The count is a Go [int]; it never exceeds the length of the slice
    being built, which is an [int] itself, so it is a [nat] here. *)
Definition LoadAll (b : SelectBuilder) (dest : iface)
    : Go (nat * option error) (nat * option error) :=
  d <- LoadAll_dest dest ;;
  let '(valueOfDest, kindOfDest, recordType) := d in
  fullSql <- check (Interpolate (ToSql b).1 (ToSql b).2) (fun err =>
    e <- EventErr "dbr.select.load_all.interpolate" err ;;
    return_ (0, Some e)) ;;
  let numberOfRowsReturned := 0 in
  defer (TimingKv "dbr.select" {["sql" := fullSql]}) (
  rows <- Query b fullSql ;;
  rows <- check rows (fun err =>
    e <- EventErrKv "dbr.select.load_all.query" err {["sql" := fullSql]} ;;
    return_ (0, Some e)) ;;
  defer rows_Close (
  columns <- rows_Columns rows ;;
  columns <- check columns (fun err =>
    e <- EventErrKv "dbr.select.load_one.rows.Columns" err {["sql" := fullSql]} ;;
    return_ (numberOfRowsReturned, Some e)) ;;
  fieldMap <- check (calculateFieldMap recordType columns false) (fun err =>
    e <- EventErrKv "dbr.select.load_all.calculateFieldMap" err
           {["sql" := fullSql]} ;;
    return_ (numberOfRowsReturned, Some e)) ;;
  numberOfRowsReturned <-
    (if decide (kindOfDest = reflect.Slice) then
       let sliceValue := valueOfDest in
       s <- for_Next (yields rows)
              (LoadAll_row fullSql recordType fieldMap)
              (sliceValue, numberOfRowsReturned) ;;
       let '(sliceValue, numberOfRowsReturned) := s in
       Value_Set valueOfDest sliceValue ;;
       ret numberOfRowsReturned
     else (* Map *)
       ret numberOfRowsReturned) ;;
  err <- rows_Err rows ;;
  match err with
  | Some err =>
      e <- EventErrKv "dbr.select.load_all.rows_err" err {["sql" := fullSql]} ;;
      return_ (numberOfRowsReturned, Some e)
  | None => return_ (numberOfRowsReturned, None)
  end)).

(** [func (b *SelectBuilder) LoadOne(dest interface{}) error]. *)
Definition LoadOne (b : SelectBuilder) (dest : iface)
    : Go (option error) (option error) :=
  let valueOfDest := reflect_ValueOf dest in
  indirectOfDest <- reflect_Indirect valueOfDest ;;
  let kindOfDest := Value_Kind valueOfDest in
  if negb (bool_decide (kindOfDest = reflect.Ptr))
     || negb (bool_decide (Value_Kind indirectOfDest = reflect.Struct)) then
    panic "you need to pass in the address of a struct"
  else
  recordType <- must (Value_Type indirectOfDest)
                     "reflect: call of reflect.Value.Type on zero Value" ;;
  fullSql <- check (Interpolate (ToSql b).1 (ToSql b).2) (fun err =>
    return_ (Some err)) ;;
  defer (TimingKv "dbr.select" {["sql" := fullSql]}) (
  rows <- Query b fullSql ;;
  rows <- check rows (fun err =>
    e <- EventErrKv "dbr.select.load_one.query" err {["sql" := fullSql]} ;;
    return_ (Some e)) ;;
  defer rows_Close (
  columns <- rows_Columns rows ;;
  columns <- check columns (fun err =>
    e <- EventErrKv "dbr.select.load_one.rows.Columns" err {["sql" := fullSql]} ;;
    return_ (Some e)) ;;
  fieldMap <- check (calculateFieldMap recordType columns false) (fun err =>
    e <- EventErrKv "dbr.select.load_one.calculateFieldMap" err
           {["sql" := fullSql]} ;;
    return_ (Some e)) ;;
  match yields rows with
  | r :: _ =>
      emit (Next_ true) ;;
      holder <- check (holderFor indirectOfDest fieldMap) (fun err =>
        e <- EventErrKv "dbr.select.load_one.holderFor" err {["sql" := fullSql]} ;;
        return_ (Some e)) ;;
      err <- rows_Scan r holder ;;
      match err with
      | Some err =>
          e <- EventErrKv "dbr.select.load_one.scan" err {["sql" := fullSql]} ;;
          return_ (Some e)
      | None => return_ None
      end
  | [] =>
      emit (Next_ false) ;;
      err <- rows_Err rows ;;
      match err with
      | Some err =>
          e <- EventErrKv "dbr.select.load_one.rows_err" err {["sql" := fullSql]} ;;
          return_ (Some e)
      | None => return_ (Some ErrNotFound)
      end
  end)).

(** [func (b *SelectBuilder) LoadValue(dest interface{}) error]. *)
Definition LoadValue (b : SelectBuilder) (dest : iface)
    : Go (option error) (option error) :=
  let valueOfDest := reflect_ValueOf dest in
  let kindOfDest := Value_Kind valueOfDest in
  if negb (bool_decide (kindOfDest = reflect.Ptr)) then
    panic "Destination must be a pointer"
  else
  fullSql <- check (Interpolate (ToSql b).1 (ToSql b).2) (fun err =>
    return_ (Some err)) ;;
  defer (TimingKv "dbr.select" {["sql" := fullSql]}) (
  rows <- Query b fullSql ;;
  rows <- check rows (fun err =>
    e <- EventErrKv "dbr.select.load_value.query" err {["sql" := fullSql]} ;;
    return_ (Some e)) ;;
  defer rows_Close (
  match yields rows with
  | r :: _ =>
      emit (Next_ true) ;;
      err <- rows_Scan r [dest] ;;
      match err with
      | Some err =>
          e <- EventErrKv "dbr.select.load_value.scan" err {["sql" := fullSql]} ;;
          return_ (Some e)
      | None => return_ None
      end
  | [] =>
      emit (Next_ false) ;;
      err <- rows_Err rows ;;
      match err with
      | Some err =>
          e <- EventErrKv "dbr.select.load_value.rows_err" err {["sql" := fullSql]} ;;
          return_ (Some e)
      | None => return_ (Some ErrNotFound)
      end
  end)).

End Loaders.

(** ** The field mapper and the holder builder *)

(** The file calls [calculateFieldMap] and [holderFor] and does not define
    them; what follows is their contract. *)

(** Modelled from the spec: the Record Type Descriptor (the part of
    [calculateFieldMap], absent from [select_load.go], that reads a
    structure type).  One entry per exported field: its name, its explicit
    column name when the tag gives one, and whether the tag excludes it.
    [position] is the index of the field in the structure. *)
Record FieldSpec := mkFieldSpec {
  exportedName : string;
  explicitColumnName : option string;
  excluded : bool;
  position : nat;
}.

Abbreviation RecordType := (list FieldSpec).

Definition lower_ascii (c : Ascii.ascii) : Ascii.ascii :=
  let n := Ascii.nat_of_ascii c in
  if (65 <=? n)%nat && (n <=? 90)%nat then Ascii.ascii_of_nat (n + 32) else c.

Fixpoint lower (s : string) : string :=
  match s with
  | EmptyString => EmptyString
  | String c s' => String (lower_ascii c) (lower s')
  end.

Section Mapper.
(** The conventional transform of a field identifier into a column name
    ([NameMapping] in the package). *)
Variable NameMapping : string -> string.

Definition fieldSpec_of (j : nat) (f : reflect.StructField) : FieldSpec :=
  let tag := reflect.Tag_db f in
  {| exportedName := reflect.Name f;
     explicitColumnName :=
       if bool_decide (tag = "") || bool_decide (tag = "-")
       then None else Some tag;
     excluded := bool_decide (tag = "-");
     position := j |}.

(** The column name a field resolves to. *)
Definition columnName (f : FieldSpec) : string :=
  match explicitColumnName f with
  | Some name => name
  | None => NameMapping (exportedName f)
  end.

Definition exported (f : reflect.StructField) : bool :=
  bool_decide (reflect.PkgPath f = "").

Definition fieldSpecs (t : type) : RecordType :=
  match t with
  | reflect.TStruct fields =>
      omap (fun jf => if exported jf.2 then Some (fieldSpec_of jf.1 jf.2) else None)
           (imap pair fields)
  | _ => []
  end.

(** The first column name two fields of the list share. *)
Fixpoint ambiguous (names : list string) : option string :=
  match names with
  | [] => None
  | n :: names' =>
      if bool_decide (n ∈ names') then Some n else ambiguous names'
  end.

(** Modelled from the spec: [describe].  It fails only when two distinct
    fields that are not excluded resolve to the same column name. *)
Definition describe (t : type) : result RecordType :=
  let rt := fieldSpecs t in
  match ambiguous (columnName <$> filter (fun f => excluded f = false) rt) with
  | Some name => Fail (DescriptorError name)
  | None => Ok rt
  end.

(** A column matches a field when the names are equal up to case. *)
Definition matches (column : string) (f : FieldSpec) : bool :=
  negb (excluded f) && bool_decide (lower column = lower (columnName f)).

(** Modelled from the spec: [mapFields].  Each column goes to the field
    whose column name matches, or nowhere; a field that is not excluded
    and has no matching column is an error unless the call is
    [tolerant]. *)
Definition mapFields (rt : RecordType) (columns : list string)
    (tolerant : bool) : result fieldMap :=
  let fm := (fun column =>
               (fun f => [position f]) <$> List.find (matches column) rt)
            <$> columns in
  if tolerant then Ok fm
  else
    match List.find (fun f => negb (excluded f)
                              && negb (existsb (fun c => matches c f) columns)) rt
    with
    | Some f => Fail (UnmappedFieldError (exportedName f))
    | None => Ok fm
    end.

(** Modelled from the spec: [calculateFieldMap], the descriptor followed
    by the mapper; the third argument is the mapper's [tolerant]. *)
Definition spec_calculateFieldMap (recordType : type) (columns : list string)
    (tolerant : bool) : result fieldMap :=
  match describe recordType with
  | Ok rt => mapFields rt columns tolerant
  | Fail err => Fail err
  end.
End Mapper.

(** The type of the part of a [t] at [path]. *)
Fixpoint field_type (t : type) (path : list nat) : option type :=
  match path with
  | [] => Some t
  | j :: p =>
      match t with
      | reflect.TStruct fields => fields !! j ≫= fun f => field_type (reflect.Type_ f) p
      | _ => None
      end
  end.

(** The targets of the columns, in column order. *)
Fixpoint targets (t : type) (l : loc) (base : list nat) (fm : fieldMap)
    : result (list iface) :=
  match fm with
  | [] => Ok []
  | entry :: fm' =>
      let target :=
        match entry with
        | None => Ok (Iface (reflect.TPtr reflect.TInterface) VDiscard)
        | Some path =>
            match field_type t path with
            | Some ft => Ok (Iface (reflect.TPtr ft) (VPtr l (base ++ path)))
            | None => Fail (FieldAccessError path)
            end
        end in
      match target, targets t l base fm' with
      | Ok d, Ok ds => Ok (d :: ds)
      | Fail err, _ => Fail err
      | _, Fail err => Fail err
      end
  end.

(** Modelled from the spec: [holderFor] ([buildTargets]), absent from
    [select_load.go].  One scan target per column: the address of the
    field the column is mapped to, the throw-away variable for a column
    mapped nowhere.  It fails when a path does not exist on the record. *)
Definition spec_holderFor (record : Value) (fm : fieldMap) : result (list iface) :=
  match record with
  | Var t l base => targets t l base fm
  | _ => Fail (FieldAccessError [])
  end.

(** The collaborators as the spec describes them, for any name mapping,
    interpolation and conversion. *)
Definition spec_Collaborators (NameMapping : string -> string)
    (interpolate : string -> list iface -> result string)
    (convert : type -> datum -> result value) : Collaborators :=
  {| Interpolate := interpolate;
     calculateFieldMap := spec_calculateFieldMap NameMapping;
     holderFor := spec_holderFor;
     convertAssign := convert |}.

(** ** Shapes of destinations *)

(** A pointer to a structure, the element type [LoadAll] wants. *)
Definition record_pointer (t : type) : bool :=
  match t with
  | reflect.TPtr (reflect.TStruct _) => true
  | _ => false
  end.

(** The destination types [LoadAll] goes on with: a map of record
    pointers, or the address of such a map or of a slice of record
    pointers. *)
Definition LoadAll_shape (t : type) : bool :=
  match t with
  | reflect.TMap _ e => record_pointer e
  | reflect.TPtr (reflect.TMap _ e) => record_pointer e
  | reflect.TPtr (reflect.TSlice e) => record_pointer e
  | _ => false
  end.

(** A map, or the address of a slice, of record pointers. *)
Definition map_or_slice_address (t : type) : bool :=
  match t with
  | reflect.TMap _ e => record_pointer e
  | reflect.TPtr (reflect.TSlice e) => record_pointer e
  | _ => false
  end.

Definition dynamic_type (dest : iface) : option type :=
  match dest with
  | nil_iface => None
  | Iface t _ => Some t
  end.

Definition shaped (shape : type -> bool) (dest : iface) : bool :=
  match dynamic_type dest with
  | Some t => shape t
  | None => false
  end.

Definition panics {R} (r : outcome R * World) : Prop :=
  exists msg w', r = (Panicked msg, w').

(** Every target of [holder] that is an address lies in the variable [l]. *)
Definition within (l : loc) (holder : list iface) : Prop :=
  Forall (fun d => forall t l' path, d = Iface t (VPtr l' path) -> l' = l) holder.

(** The record type [LoadAll] extracts from a destination type. *)
Definition LoadAll_recordType (t : type) : option type :=
  match t with
  | reflect.TMap _ (reflect.TPtr (reflect.TStruct fields))
  | reflect.TPtr (reflect.TMap _ (reflect.TPtr (reflect.TStruct fields)))
  | reflect.TPtr (reflect.TSlice (reflect.TPtr (reflect.TStruct fields))) =>
      Some (reflect.TStruct fields)
  | _ => None
  end.

(** A destination that is a pointer points at something. *)
Definition valid_pointer (h : heap) (dest : iface) : Prop :=
  forall t v, dest = Iface (reflect.TPtr t) v ->
    exists l path x, v = VPtr l path /\ read h l path = Some x.

(** ** Rows, one at a time *)

Section Rows.
Context {pkg : Collaborators}.

(** What goes wrong with the row [r] when its record is the variable
    [l]: the operation that fails, and its error. *)
Definition row_error (recordType : type) (fm : fieldMap) (l : loc) (r : row)
    : option (string * error) :=
  match holderFor (Var recordType l []) fm with
  | Fail err => Some ("dbr.select.load_all.holderFor", err)
  | Ok holder =>
      match (scan r holder []).2 with
      | Some err => Some ("dbr.select.load_all.scan", err)
      | None => None
      end
  end.

(** The record the row [r] is scanned into, at [l]. *)
Definition scanned_record (recordType : type) (fm : fieldMap) (l : loc) (r : row)
    : option value :=
  match holderFor (Var recordType l []) fm with
  | Ok holder => (scan r holder (replicate l VNil ++ [zero recordType])).1 !! l
  | Fail _ => None
  end.

(** The targets [holderFor] builds lie in the record it is given. *)
Definition holders_within : Prop :=
  forall t l path fm holder,
    holderFor (Var t l path) fm = Ok holder -> within l holder.
End Rows.

(** The addresses of [n] variables allocated one after the other from [l]. *)
Definition new_pointers (l : loc) (n : nat) : list value :=
  (fun i => VPtr i []) <$> seq l n.

(** What [LoadAll] returns for the error of the cursor. *)
Definition rows_err (fullSql : string) (err : option error) : option error :=
  (fun e => Tagged "dbr.select.load_all.rows_err" {["sql" := fullSql]} e) <$> err.

(** What the event sink hears of the error of the cursor. *)
Definition rows_err_events (fullSql : string) (err : option error) : list event :=
  match err with
  | Some e => [EventErrKv_ "dbr.select.load_all.rows_err" e {["sql" := fullSql]}]
  | None => []
  end.

Definition is_Next_true (e : event) : bool :=
  match e with Next_ true => true | _ => false end.
Definition is_Set (e : event) : bool :=
  match e with Set_ _ => true | _ => false end.
Definition is_Scan (e : event) : bool :=
  match e with Scan_ _ _ => true | _ => false end.
Definition is_New (e : event) : bool :=
  match e with New_ _ => true | _ => false end.

(** How many events of a kind a log holds. *)
Definition count (kind : event -> bool) (evs : list event) : nat :=
  length (List.filter kind evs).

(** ** A small database for the examples *)

Module Example.

(** It takes a query without placeholders and without arguments. *)
Definition interpolate (sql : string) (vals : list iface) : result string :=
  match vals with
  | [] => Ok sql
  | _ => Fail (ErrCollaborator "dbr: wrong number of arguments")
  end.

Definition convert (t : type) (src : datum) : result value :=
  match t, src with
  | reflect.TBasic reflect.int64_, DInt z => Ok (VData (DInt z))
  | reflect.TBasic reflect.string_, DString s => Ok (VData (DString s))
  | reflect.TBasic reflect.bool_, DBool b => Ok (VData (DBool b))
  | _, _ => Fail (ErrCollaborator "sql: unsupported Scan")
  end.

Definition collaborators : Collaborators :=
  spec_Collaborators lower interpolate convert.

(** [type Person struct { ID int64; Name string }]. *)
Definition Person : type :=
  reflect.TStruct
    [reflect.Field "ID" "" "" (reflect.TBasic reflect.int64_);
     reflect.Field "Name" "" "" (reflect.TBasic reflect.string_)].

Definition person (id : Z) (name : string) : value :=
  VStruct [VData (DInt id); VData (DString name)].

Definition people : Rows :=
  {| Columns := Ok ["id"; "name"];
     yields := [[DInt 1; DString "a"]; [DInt 2; DString "b"]; [DInt 3; DString "c"]];
     Err := None |}.

(** Two rows with the same id. *)
Definition twins : Rows :=
  {| Columns := Ok ["id"; "name"];
     yields := [[DInt 1; DString "a"]; [DInt 1; DString "b"]];
     Err := None |}.

(** The second row has no usable name. *)
Definition broken : Rows :=
  {| Columns := Ok ["id"; "name"];
     yields := [[DInt 1; DString "a"]; [DInt 2; DNull]; [DInt 3; DString "c"]];
     Err := None |}.

Definition empty : Rows :=
  {| Columns := Ok ["id"; "name"]; yields := []; Err := None |}.

(** Only the ids are selected. *)
Definition ids : Rows :=
  {| Columns := Ok ["id"]; yields := [[DInt 1]]; Err := None |}.

Definition builder (sql : string) (vals : list iface) (rows : Rows)
    : SelectBuilder :=
  {| ToSql := (sql, vals); runner_Query := fun _ => Ok rows |}.

Definition select (rows : Rows) : SelectBuilder :=
  builder "SELECT id, name FROM people" [] rows.

(** A builder with an argument too many. *)
Definition mismatched : SelectBuilder :=
  builder "SELECT id, name FROM people" [Iface (reflect.TBasic reflect.int64_) (VData (DInt 1))]
          people.

(** [var s []*Person] at address 0, one [Person] at 1, and
    [m := map[int64]*Person{}], at 2, with its entries at 3. *)
Definition store : World :=
  {| mem := [VSlice []; person 7 "z"; VMapRef 3; VMapObj []]; log := [] |}.

Definition slice_address : iface :=
  Iface (reflect.TPtr (reflect.TSlice (reflect.TPtr Person))) (VPtr 0 []).
Definition person_address : iface :=
  Iface (reflect.TPtr Person) (VPtr 1 []).
Definition the_map : iface :=
  Iface (reflect.TMap (reflect.TBasic reflect.int64_) (reflect.TPtr Person)) (VMapRef 3).
Definition map_address : iface :=
  Iface (reflect.TPtr (reflect.TMap (reflect.TBasic reflect.int64_) (reflect.TPtr Person)))
        (VPtr 2 []).

End Example.

(** An error that went through the event sink with the query text. *)
Definition forwarded (fullSql : string) (e : error) (w' : World) : Prop :=
  exists eventName cause,
    e = Tagged eventName {["sql" := fullSql]} cause
    /\ EventErrKv_ eventName cause {["sql" := fullSql]} ∈ log w'.

(** What the loop of [LoadAll] needs of [sliceValue]: it is a slice of
    [e] holding [es]. *)
Definition holds (e : type) (w : World) (sv : Value) (es : list value) : Prop :=
  Value_Type sv = Some (reflect.TSlice e)
  /\ Value_load (mem w) sv = Some (VSlice es).

(** ** More kinds of events, and the destinations the loaders take *)

Definition is_Close (e : event) : bool :=
  match e with Close_ => true | _ => false end.
Definition is_TimingKv (e : event) : bool :=
  match e with TimingKv_ _ _ => true | _ => false end.
Definition is_Scan_ok (e : event) : bool :=
  match e with Scan_ _ true => true | _ => false end.
Definition is_Err (e : event) : bool :=
  match e with Err_ => true | _ => false end.
Definition is_Columns (e : event) : bool :=
  match e with Columns_ => true | _ => false end.
Definition is_Next (e : event) : bool :=
  match e with Next_ _ => true | _ => false end.
Definition is_Query (e : event) : bool :=
  match e with Query_ _ => true | _ => false end.

(** The events of the loop of [LoadAll]: a row asked for, a record
    allocated, a scan, a failure reported. *)
Definition loop_event (e : event) : bool :=
  match e with
  | Next_ _ | New_ _ | Scan_ _ _ | EventErrKv_ _ _ _ => true
  | _ => false
  end.

(** The destinations [LoadAll] goes on with: of the right shape and, for an
    address, not nil. *)
Definition LoadAll_accepts (dest : iface) : bool :=
  match dest with
  | Iface (reflect.TMap _ e) _ => record_pointer e
  | Iface (reflect.TPtr (reflect.TMap _ e)) (VPtr _ _) => record_pointer e
  | Iface (reflect.TPtr (reflect.TSlice e)) (VPtr _ _) => record_pointer e
  | _ => false
  end.

(** The destinations [LoadOne] goes on with: the address of a structure,
    not nil. *)
Definition LoadOne_accepts (dest : iface) : bool :=
  match dest with
  | Iface (reflect.TPtr (reflect.TStruct _)) (VPtr _ _) => true
  | _ => false
  end.

(** A destination that is the address of a slice points at a slice. *)
Definition slice_in_store (h : heap) (dest : iface) : Prop :=
  forall e l path, dest = Iface (reflect.TPtr (reflect.TSlice e)) (VPtr l path) ->
    exists es, read h l path = Some (VSlice es).

(** The events a loader leaves between its query and the release of the
    cursor: no second query, no release, no timing, no second look at the
    columns. *)
Definition inner_event (e : event) : Prop :=
  is_Query e = false /\ is_Close e = false /\ is_TimingKv e = false
  /\ is_Columns e = false.

(** The log of a call that ran the query [fullSql]: the query, what the
    loader did with the cursor, then the release of the cursor and, last,
    the timing; one query, one release, one timing. *)
Definition released_once (fullSql : string) (before after : list event) : Prop :=
  exists evs,
    after = before ++ Query_ fullSql :: evs
                   ++ [Close_; TimingKv_ "dbr.select" {["sql" := fullSql]}]
    /\ count is_Query evs = 0 /\ count is_Close evs = 0
    /\ count is_TimingKv evs = 0.

(** ** A database that fails *)

Module Faulty.

(** The connection is refused. *)
Definition down : SelectBuilder :=
  {| ToSql := ("SELECT id, name FROM people", []);
     runner_Query := fun _ => Fail (ErrCollaborator "connection refused") |}.

(** A cursor that cannot tell its columns. *)
Definition closed : Rows :=
  {| Columns := Fail (ErrCollaborator "sql: Rows are closed");
     yields := [];
     Err := None |}.

(** The connection is lost after the first row. *)
Definition interrupted : Rows :=
  {| Columns := Ok ["id"; "name"];
     yields := [[DInt 1; DString "a"]];
     Err := Some (ErrCollaborator "connection reset") |}.

(** The number of people, and a row more than asked for. *)
Definition total : Rows :=
  {| Columns := Ok ["count"]; yields := [[DInt 42]; [DInt 43]]; Err := None |}.

Definition count_query (rows : Rows) : SelectBuilder :=
  Example.builder "SELECT COUNT(id) FROM people" [] rows.

(** [var n int64] at address 0 and [var s []*Person] at 1. *)
Definition counter : World :=
  {| mem := [VData (DInt 0); VSlice []]; log := [] |}.

Definition counter_address : iface :=
  Iface (reflect.TPtr (reflect.TBasic reflect.int64_)) (VPtr 0 []).

(** [var p *Person], nil, passed as it is. *)
Definition nil_person : iface := Iface (reflect.TPtr Example.Person) VNil.

(** [var s *[]*Person], nil. *)
Definition nil_slice : iface :=
  Iface (reflect.TPtr (reflect.TSlice (reflect.TPtr Example.Person))) VNil.

End Faulty.

(** ** Tactics *)

(** Unfolding the statements of a loader. *)
Ltac go :=
  cbv [call bind ret check return_ panic must defer emit emitted get_mem put_mem
       rows_Columns rows_Err rows_Close Query EventErr EventErrKv TimingKv];
  cbn [fst snd mem log].

(** Case analysis on the kind of a type. *)
Ltac by_kind t := destruct t as [[]|?|?|? ?|? ?|?| | |?].

Ltac kinds :=
  repeat (simpl in *; try done; try (by eexists);
          match goal with
          | H : context [match ?t with _ => _ end] |- _ =>
              is_var t; lazymatch type of t with type => by_kind t end
          | |- context [reflect.Kind_of ?t] => is_var t; by_kind t
          end).

(** * Properties *)

(** ** The store *)

Lemma part_update path new old v :
  part path v = Some old -> part path (update path new v) = Some new.
Proof.
  revert v. induction path as [|j p IH]; intros v Hv; simpl in *; [done|].
  destruct v; try done. simpl.
  destruct (fields !! j) as [x|] eqn:Hj; simpl in *; [|done].
  rewrite list_lookup_alter_eq, Hj. simpl. by apply IH.
Qed.

Lemma update_part path x v :
  part path v = Some x -> update path x v = v.
Proof.
  revert v. induction path as [|j p IH]; intros v Hv; simpl in *.
  - congruence.
  - destruct v; try done.
    destruct (fields !! j) as [y|] eqn:Hj; simpl in *; [|done].
    f_equal. apply list_eq; intros i.
    destruct (decide (i = j)) as [->|Hne].
    + rewrite list_lookup_alter_eq, Hj. simpl. by rewrite IH.
    + by rewrite list_lookup_alter_ne.
Qed.

Lemma length_write h l path v : length (write h l path v) = length h.
Proof. unfold write. by rewrite length_alter. Qed.

Lemma lookup_write_ne h l path v l' :
  l <> l' -> write h l path v !! l' = h !! l'.
Proof. intros. unfold write. by rewrite list_lookup_alter_ne. Qed.

Lemma read_write h l path new old :
  read h l path = Some old -> read (write h l path new) l path = Some new.
Proof.
  unfold read, write. intros Hr.
  destruct (h !! l) as [v|] eqn:Hl; simpl in *; [|done].
  rewrite list_lookup_alter_eq, Hl. simpl. by eapply part_update.
Qed.

Lemma write_read h l path x :
  read h l path = Some x -> write h l path x = h.
Proof.
  unfold read, write. intros Hr.
  destruct (h !! l) as [v|] eqn:Hl; simpl in *; [|done].
  apply list_eq; intros i. destruct (decide (i = l)) as [->|Hne].
  - rewrite list_lookup_alter_eq, Hl. simpl. by rewrite update_part.
  - by rewrite list_lookup_alter_ne.
Qed.

Lemma read_lt h l path x : read h l path = Some x -> l < length h.
Proof.
  unfold read. intros Hr. destruct (h !! l) eqn:Hl; [|done].
  by eapply lookup_lt_Some.
Qed.

(** ** Scanning a row *)

Section ScanFacts.
Context {pkg : Collaborators}.

Lemma convertAssignTo_length d src h h' :
  convertAssignTo d src h = Ok h' -> length h' = length h.
Proof.
  unfold convertAssignTo. intros Hc.
  repeat case_match; simplify_eq; try done. by rewrite length_write.
Qed.

Lemma convertAssignTo_frame l d src h h' l' :
  (forall t l0 path, d = Iface t (VPtr l0 path) -> l0 = l) ->
  l' <> l ->
  convertAssignTo d src h = Ok h' -> h' !! l' = h !! l'.
Proof.
  unfold convertAssignTo. intros Hd Hne Hc.
  repeat case_match; simplify_eq; try done.
  match goal with
  | |- write _ ?l0 _ _ !! _ = _ => rewrite (Hd _ l0 _ eq_refl)
  end.
  by rewrite lookup_write_ne.
Qed.

(** Whether one column converts does not depend on the store. *)
Lemma convertAssignTo_error d src h1 h2 err :
  convertAssignTo d src h1 = Fail err -> convertAssignTo d src h2 = Fail err.
Proof.
  unfold convertAssignTo. intros Hc. repeat case_match; simplify_eq; done.
Qed.

Lemma convertAssignTo_ok d src h1 h1' h2 :
  convertAssignTo d src h1 = Ok h1' -> exists h2', convertAssignTo d src h2 = Ok h2'.
Proof.
  unfold convertAssignTo. intros Hc. repeat case_match; simplify_eq; eauto.
Qed.

(** What [convertAssignTo] leaves at [l] depends on what was at [l]. *)
Lemma convertAssignTo_local d src h1 h1' h2 h2' l :
  h1 !! l = h2 !! l ->
  convertAssignTo d src h1 = Ok h1' -> convertAssignTo d src h2 = Ok h2' ->
  h1' !! l = h2' !! l.
Proof.
  unfold convertAssignTo. intros Hl H1 H2.
  repeat case_match; simplify_eq; try done.
  unfold write. destruct (decide (l0 = l)) as [->|Hne].
  - by rewrite !list_lookup_alter_eq, Hl.
  - by rewrite !list_lookup_alter_ne.
Qed.

Lemma convertAssignRow_length dest r h :
  length (convertAssignRow dest r h).1 = length h.
Proof.
  revert r h. induction dest as [|d dest IH]; intros [|sv r] h; simpl; try done.
  destruct (convertAssignTo d sv h) as [h'|err] eqn:Hc; [|done].
  rewrite IH. by eapply convertAssignTo_length.
Qed.

Lemma convertAssignRow_frame l dest r h l' :
  within l dest -> l' <> l -> (convertAssignRow dest r h).1 !! l' = h !! l'.
Proof.
  revert r h. induction dest as [|d dest IH]; intros [|sv r] h Hw Hne; simpl; try done.
  apply Forall_cons in Hw as [Hd Hw].
  destruct (convertAssignTo d sv h) as [h'|err] eqn:Hc; [|done].
  rewrite IH by done. by eapply convertAssignTo_frame.
Qed.

Lemma convertAssignRow_error dest r h1 h2 :
  (convertAssignRow dest r h1).2 = (convertAssignRow dest r h2).2.
Proof.
  revert r h1 h2. induction dest as [|d dest IH]; intros [|sv r] h1 h2; simpl; try done.
  destruct (convertAssignTo d sv h1) as [h1'|err] eqn:Hc.
  - destruct (convertAssignTo_ok _ _ _ _ h2 Hc) as [h2' ->]. apply IH.
  - by rewrite (convertAssignTo_error _ _ _ h2 _ Hc).
Qed.

Lemma convertAssignRow_local dest r h1 h2 l :
  h1 !! l = h2 !! l ->
  (convertAssignRow dest r h1).1 !! l = (convertAssignRow dest r h2).1 !! l.
Proof.
  revert r h1 h2. induction dest as [|d dest IH]; intros [|sv r] h1 h2 Hl; simpl; try done.
  destruct (convertAssignTo d sv h1) as [h1'|err] eqn:Hc.
  - destruct (convertAssignTo_ok _ _ _ _ h2 Hc) as [h2' Hc2]. rewrite Hc2.
    apply IH. by eapply convertAssignTo_local.
  - by rewrite (convertAssignTo_error _ _ _ h2 _ Hc).
Qed.

Lemma length_scan r dest h : length (scan r dest h).1 = length h.
Proof. unfold scan. case_decide; [apply convertAssignRow_length|done]. Qed.

Lemma scan_frame l r dest h l' :
  within l dest -> l' <> l -> (scan r dest h).1 !! l' = h !! l'.
Proof.
  unfold scan. intros. case_decide; [by eapply convertAssignRow_frame|done].
Qed.

Lemma scan_error r dest h1 h2 : (scan r dest h1).2 = (scan r dest h2).2.
Proof. unfold scan. case_decide; [apply convertAssignRow_error|done]. Qed.

Lemma scan_local r dest h1 h2 l :
  h1 !! l = h2 !! l -> (scan r dest h1).1 !! l = (scan r dest h2).1 !! l.
Proof.
  unfold scan. intros. case_decide; [by apply convertAssignRow_local|done].
Qed.
End ScanFacts.

(** ** Validation of the destination *)

Section Validation.
Context {pkg : Collaborators}.

Lemma LoadAll_dest_rejects {R} dest w :
  shaped LoadAll_shape dest = false ->
  exists msg, LoadAll_dest (R:=R) dest w = (Panic msg, w).
Proof.
  intros Hs. destruct dest as [|t v]; [by eexists|].
  unfold shaped, dynamic_type, LoadAll_shape, record_pointer in Hs.
  destruct w as [h lg].
  by_kind t; try (by eexists); [destruct v; try (by eexists)|].
  all: kinds.
Qed.

Lemma LoadAll_dest_slice {R} fields l path w :
  LoadAll_dest (R:=R)
    (Iface (TPtr (TSlice (TPtr (TStruct fields)))) (VPtr l path)) w
  = (Step (Var (TSlice (TPtr (TStruct fields))) l path, reflect.Slice,
           TStruct fields), w).
Proof. by destruct w. Qed.

Lemma LoadAll_dest_map {R} key fields v w :
  LoadAll_dest (R:=R) (Iface (TMap key (TPtr (TStruct fields))) v) w
  = (Step (Held (TMap key (TPtr (TStruct fields))) v, reflect.Map,
           TStruct fields), w).
Proof. by destruct w. Qed.

Lemma LoadAll_dest_map_address {R} key fields l path w :
  LoadAll_dest (R:=R)
    (Iface (TPtr (TMap key (TPtr (TStruct fields)))) (VPtr l path)) w
  = (Step (Var (TMap key (TPtr (TStruct fields))) l path, reflect.Map,
           TStruct fields), w).
Proof. by destruct w. Qed.

(** Validation panics or goes on; it touches nothing. *)
Lemma LoadAll_dest_pure {R} dest w :
  (exists msg, LoadAll_dest (R := R) dest w = (Panic msg, w))
  \/ (exists d, LoadAll_dest (R := R) dest w = (Step d, w)).
Proof.
  destruct w as [h lg]. destruct dest as [|t v]; [left; by eexists|].
  by_kind t; try (left; by eexists); [destruct v; try (left; by eexists)|].
  - match goal with |- context [Iface (TPtr ?e) _] => by_kind e end;
      try (left; by eexists).
    all: match goal with
         | |- context [TSlice ?e] => by_kind e
         | |- context [TMap _ ?e] => by_kind e
         end; try (left; by eexists).
    all: match goal with
         | |- context [TSlice (TPtr ?e)] => by_kind e
         | |- context [TMap _ (TPtr ?e)] => by_kind e
         end; try (left; by eexists); right; by eexists.
  - match goal with |- context [TMap _ ?e] => by_kind e end;
      try (left; by eexists).
    match goal with |- context [TMap _ (TPtr ?e)] => by_kind e end;
      try (left; by eexists); right; by eexists.
Qed.

Lemma LoadAll_rejects b dest w :
  shaped LoadAll_shape dest = false ->
  exists msg, call (LoadAll b dest) w = (Panicked msg, w).
Proof.
  intros Hs. destruct (LoadAll_dest_rejects (R:=nat * option error) dest w Hs) as [msg Hd].
  exists msg. unfold LoadAll, call, bind. by rewrite Hd.
Qed.

Lemma LoadOne_rejects b dest w :
  shaped record_pointer dest = false ->
  exists msg, call (LoadOne b dest) w = (Panicked msg, w).
Proof.
  intros Hs. destruct dest as [|t v]; [by eexists|].
  unfold shaped, dynamic_type, record_pointer in Hs. destruct w as [h lg].
  by_kind t; try (by eexists). destruct v; try (by eexists).
  all: kinds.
Qed.

End Validation.

Section LoadValueFacts.
Context {pkg : Collaborators}.

Lemma LoadValue_pointer_returns b t v w :
  exists r w', call (LoadValue b (Iface (TPtr t) v)) w = (Returned r, w').
Proof.
  unfold LoadValue. simpl. go. unfold rows_Scan.
  repeat case_match; simplify_eq; eauto.
Qed.

Lemma LoadValue_not_pointer b dest w :
  Value_Kind (reflect_ValueOf dest) <> reflect.Ptr ->
  exists msg, call (LoadValue b dest) w = (Panicked msg, w).
Proof.
  intros Hk. unfold LoadValue, call.
  rewrite bool_decide_eq_false_2 by done. by eexists.
Qed.

Lemma Kind_Ptr_inv dest :
  Value_Kind (reflect_ValueOf dest) = reflect.Ptr ->
  exists t v, dest = Iface (TPtr t) v.
Proof.
  destruct dest as [|t v]; [done|]. simpl. by_kind t; try done. eauto.
Qed.

Lemma LoadValue_scans b t v w fullSql rows r rest :
  Interpolate (ToSql b).1 (ToSql b).2 = Ok fullSql ->
  runner_Query b fullSql = Ok rows ->
  yields rows = r :: rest ->
  exists err w' evs,
    call (LoadValue b (Iface (TPtr t) v)) w = (Returned err, w')
    /\ log w' = log w ++ [Query_ fullSql; Next_ true;
                          Scan_ [Iface (TPtr t) v] (bool_decide (err = None))] ++ evs.
Proof.
  intros Hi Hq Hy. unfold LoadValue. simpl. go. rewrite Hi, Hq, Hy.
  unfold rows_Scan. cbn [mem log].
  destruct (scan r [Iface (TPtr t) v] (mem w)) as [h [err|]] eqn:Hs;
    do 3 eexists; (split; [reflexivity|]); cbn [log];
    rewrite <- !app_assoc; simpl; reflexivity.
Qed.
End LoadValueFacts.

Section Accepts.
Context {pkg : Collaborators}.

(** A destination of the right shape passes validation. *)
Lemma LoadAll_dest_accepts {R} dest t rt w :
  dynamic_type dest = Some t ->
  LoadAll_recordType t = Some rt ->
  valid_pointer (mem w) dest ->
  (exists key v, dest = Iface (TMap key (TPtr rt)) v
     /\ LoadAll_dest (R:=R) dest w
        = (Step (Held (TMap key (TPtr rt)) v, reflect.Map, rt), w))
  \/ (exists key l path, dest = Iface (TPtr (TMap key (TPtr rt))) (VPtr l path)
     /\ LoadAll_dest (R:=R) dest w
        = (Step (Var (TMap key (TPtr rt)) l path, reflect.Map, rt), w))
  \/ (exists l path x, dest = Iface (TPtr (TSlice (TPtr rt))) (VPtr l path)
     /\ read (mem w) l path = Some x
     /\ LoadAll_dest (R:=R) dest w
        = (Step (Var (TSlice (TPtr rt)) l path, reflect.Slice, rt), w)).
Proof.
  intros Ht Hrt Hv. destruct dest as [|t' v]; simplify_eq/=.
  unfold LoadAll_recordType in Hrt.
  repeat case_match; simplify_eq.
  - right; right. destruct (Hv _ _ eq_refl) as (l & path & x & -> & Hx).
    do 3 eexists. split; [done|]. split; [done|]. apply LoadAll_dest_slice.
  - right; left. destruct (Hv _ _ eq_refl) as (l & path & x & -> & Hx).
    do 3 eexists. split; [done|]. apply LoadAll_dest_map_address.
  - left. do 2 eexists. split; [done|]. apply LoadAll_dest_map.
Qed.
End Accepts.

(** ** The loop of [LoadAll] *)

Lemma count_app kind evs1 evs2 :
  count kind (evs1 ++ evs2) = count kind evs1 + count kind evs2.
Proof. unfold count. by rewrite List.filter_app, length_app. Qed.

Lemma new_pointers_S l n :
  new_pointers l (S n) = VPtr l [] :: new_pointers (S l) n.
Proof. done. Qed.

Lemma length_new_pointers l n : length (new_pointers l n) = n.
Proof. unfold new_pointers. by rewrite length_fmap, length_seq. Qed.

Section Loop.
Context {pkg : Collaborators}.
Hypothesis Hwithin : holders_within.

Variables (fullSql : string) (recordType : type) (fm : fieldMap) (e : type).

(** A row that scans. *)
Lemma LoadAll_row_ok r sv n w es :
  holds e w sv es ->
  row_error recordType fm (length (mem w)) r = None ->
  exists h' evs,
    LoadAll_row fullSql recordType fm r (sv, n) w
    = (Step (Held (TSlice e) (VSlice (es ++ [VPtr (length (mem w)) []])), n + 1),
       mkWorld h' (log w ++ evs))
    /\ length h' = S (length (mem w))
    /\ (forall l, l < length (mem w) -> h' !! l = mem w !! l)
    /\ h' !! length (mem w) = scanned_record recordType fm (length (mem w)) r
    /\ count is_Set evs = 0 /\ count is_Next_true evs = 0.
Proof.
  intros [Ht Hl] Hr. unfold row_error, scanned_record in *.
  destruct (holderFor (Var recordType (length (mem w)) []) fm) as [holder|]
    eqn:Hh; [|done].
  pose proof (Hwithin _ _ _ _ _ Hh) as Hin.
  set (h0 := mem w ++ [zero recordType]).
  destruct (scan r holder h0) as [h' err] eqn:Hs.
  assert (err = None) as ->.
  { pose proof (scan_error r holder h0 []) as He. rewrite Hs in He. simpl in He.
    rewrite He. by destruct ((scan r holder []).2). }
  assert (length h' = S (length (mem w))) as Hlen.
  { pose proof (length_scan r holder h0) as Hn. rewrite Hs in Hn. simpl in Hn.
    rewrite Hn. unfold h0. rewrite length_app. simpl. lia. }
  assert (forall l, l < length (mem w) -> h' !! l = mem w !! l) as Hframe.
  { intros l Hlt. pose proof (scan_frame _ r holder h0 l Hin) as Hf.
    rewrite Hs in Hf. simpl in Hf. rewrite Hf by lia.
    unfold h0. by rewrite lookup_app_l. }
  exists h', [New_ (length (mem w)); Scan_ holder true].
  split; [|repeat split; try done].
  - unfold LoadAll_row, reflect_New, reflect_Indirect, rows_Scan, reflect_Append.
    simpl. go. unfold Value_Elem. simpl. rewrite Hh. cbn [mem log]. fold h0. rewrite Hs.
    cbn [mem log]. rewrite Ht.
    assert (Value_load h' sv = Some (VSlice es)) as ->.
    { destruct sv as [|t v|t l path]; simpl in *; try done.
      unfold read in *. rewrite Hframe; [done|].
      destruct (mem w !! l) eqn:Hl'; [|done]. by eapply lookup_lt_Some. }
    rewrite <- app_assoc. done.
  - pose proof (scan_local r holder h0
                  (replicate (length (mem w)) VNil ++ [zero recordType])
                  (length (mem w))) as Hloc.
    rewrite Hs in Hloc. simpl in Hloc. apply Hloc.
    unfold h0. rewrite !lookup_app_r by (rewrite ?length_replicate; lia).
    by rewrite length_replicate.
Qed.

(** A row that does not. *)
Lemma LoadAll_row_fails r sv n w op err :
  row_error recordType fm (length (mem w)) r = Some (op, err) ->
  exists h' evs,
    LoadAll_row fullSql recordType fm r (sv, n) w
    = (Return (n, Some (Tagged op {["sql" := fullSql]} err)),
       mkWorld h' (log w ++ evs ++ [EventErrKv_ op err {["sql" := fullSql]}]))
    /\ (forall l, l < length (mem w) -> h' !! l = mem w !! l)
    /\ count is_Set evs = 0 /\ count is_Next_true evs = 0.
Proof.
  intros Hr. unfold row_error in *.
  destruct (holderFor (Var recordType (length (mem w)) []) fm) as [holder|err']
    eqn:Hh.
  - pose proof (Hwithin _ _ _ _ _ Hh) as Hin.
    set (h0 := mem w ++ [zero recordType]).
    destruct (scan r holder h0) as [h' err'] eqn:Hs.
    assert (err' = Some err /\ op = "dbr.select.load_all.scan") as [-> ->].
    { pose proof (scan_error r holder h0 []) as He. rewrite Hs in He. simpl in He.
      rewrite He. destruct ((scan r holder []).2); by simplify_eq. }
    exists h', [New_ (length (mem w)); Scan_ holder false].
    split; [|repeat split; try done].
    + unfold LoadAll_row, reflect_New, reflect_Indirect, rows_Scan.
      simpl. go. unfold Value_Elem. simpl. rewrite Hh. cbn [mem log]. fold h0. rewrite Hs.
      cbn [mem log]. rewrite <- !app_assoc. done.
    + intros l Hlt. pose proof (scan_frame _ r holder h0 l Hin) as Hf.
      rewrite Hs in Hf. simpl in Hf. rewrite Hf by lia.
      unfold h0. by rewrite lookup_app_l.
  - simplify_eq. exists (mem w ++ [zero recordType]), [New_ (length (mem w))].
    split; [|repeat split; try done].
    + unfold LoadAll_row, reflect_New, reflect_Indirect.
      simpl. go. unfold Value_Elem. simpl. rewrite Hh. cbn [mem log]. rewrite <- !app_assoc. done.
    + intros l Hlt. by rewrite lookup_app_l.
Qed.

(** The rows that scan, up to the first that does not. *)
Lemma for_Next_prefix pre rest sv n w es :
  holds e w sv es ->
  (forall i r, pre !! i = Some r ->
     row_error recordType fm (length (mem w) + i) r = None) ->
  exists sv' w' evs,
    for_Next (pre ++ rest) (LoadAll_row fullSql recordType fm) (sv, n) w
    = for_Next rest (LoadAll_row fullSql recordType fm) (sv', n + length pre) w'
    /\ holds e w' sv' (es ++ new_pointers (length (mem w)) (length pre))
    /\ length (mem w') = length (mem w) + length pre
    /\ (forall l, l < length (mem w) -> mem w' !! l = mem w !! l)
    /\ (forall i r, pre !! i = Some r ->
          mem w' !! (length (mem w) + i)
          = scanned_record recordType fm (length (mem w) + i) r)
    /\ log w' = log w ++ evs
    /\ count is_Set evs = 0 /\ count is_Next_true evs = length pre.
Proof.
  revert sv n w es. induction pre as [|r pre IH]; intros sv n w es Hsv Hrows.
  - exists sv, w, []. simpl. rewrite !Nat.add_0_r, !app_nil_r.
    do 4 (split; [done|]). split; [by intros []|]. done.
  - set (w1 := mkWorld (mem w) (log w ++ [Next_ true])).
    destruct (LoadAll_row_ok r sv n w1 es)
      as (h' & evs1 & Hrow & Hlen & Hfr & Hrec & Hs1 & Hn1).
    { exact Hsv. }
    { specialize (Hrows 0 r eq_refl). rewrite Nat.add_0_r in Hrows. exact Hrows. }
    set (w2 := mkWorld h' (log w1 ++ evs1)) in *.
    destruct (IH (Held (TSlice e) (VSlice (es ++ [VPtr (length (mem w)) []])))
                (n + 1) w2 (es ++ [VPtr (length (mem w)) []]))
      as (sv' & w' & evs & Hrun & Hsv' & Hlen' & Hfr' & Hrec' & Hlog & Hs & Hn).
    { by split. }
    { intros i r' Hi. simpl. rewrite Hlen. specialize (Hrows (S i) r' Hi).
      by rewrite Nat.add_succ_r in Hrows. }
    simpl in Hlen', Hfr', Hrec', Hlog. rewrite Hlen in *.
    change (mem w1) with (mem w) in *. change (mem w2) with h' in *.
    exists sv', w', ([Next_ true] ++ evs1 ++ evs).
    split.
    { simpl. unfold bind at 1, emit at 1. fold w1. unfold bind at 1.
      simpl in Hrow. rewrite Hrow. fold w2. rewrite Hrun.
      by replace (n + 1 + length pre) with (n + S (length pre)) by lia. }
    split.
    { destruct Hsv' as [? Hload]. split; [done|].
      rewrite Hload. simpl. by rewrite Hlen, new_pointers_S, <- app_assoc. }
    split; [rewrite Hlen'; simpl; lia|].
    split; [intros l Hl; rewrite Hfr' by lia; by apply Hfr|].
    split.
    { intros [|i] r' Hi; simplify_eq/=.
      - rewrite Nat.add_0_r, Hfr' by (rewrite ?Hlen; lia). done.
      - rewrite Nat.add_succ_r. specialize (Hrec' i r' Hi).
        by rewrite ?Hlen in Hrec'. }
    split; [rewrite Hlog; simpl; by rewrite <- !app_assoc|].
    rewrite !count_app, Hs1, Hs, Hn1, Hn. done.
Qed.
End Loop.

Section LoadAllFacts.
Context {pkg : Collaborators}.
Hypothesis Hwithin : holders_within.

Lemma LoadAll_slice_loads b fields l path es w fullSql rows cols fm :
  Interpolate (ToSql b).1 (ToSql b).2 = Ok fullSql ->
  runner_Query b fullSql = Ok rows ->
  Columns rows = Ok cols ->
  calculateFieldMap (TStruct fields) cols false = Ok fm ->
  read (mem w) l path = Some (VSlice es) ->
  (forall i r, yields rows !! i = Some r ->
     row_error (TStruct fields) fm (length (mem w) + i) r = None) ->
  exists w',
    call (LoadAll b (Iface (TPtr (TSlice (TPtr (TStruct fields)))) (VPtr l path))) w
    = (Returned (length (yields rows), rows_err fullSql (Err rows)), w')
    /\ read (mem w') l path
       = Some (VSlice (es ++ new_pointers (length (mem w)) (length (yields rows))))
    /\ length (mem w') = length (mem w) + length (yields rows)
    /\ (forall i r, yields rows !! i = Some r ->
          mem w' !! (length (mem w) + i)
          = scanned_record (TStruct fields) fm (length (mem w) + i) r)
    /\ (forall l', l' < length (mem w) -> l' <> l -> mem w' !! l' = mem w !! l')
    /\ count is_Set (log w') = count is_Set (log w) + 1
    /\ count is_Next_true (log w') = count is_Next_true (log w) + length (yields rows).
Proof.
  intros Hi Hq Hc Hfm Hread Hrows.
  set (w0 := mkWorld (mem w) ((log w ++ [Query_ fullSql]) ++ [Columns_])).
  destruct (for_Next_prefix Hwithin fullSql (TStruct fields) fm
              (TPtr (TStruct fields)) (yields rows) []
              (Var (TSlice (TPtr (TStruct fields))) l path) 0 w0 es)
    as (sv' & w' & evs & Hrun & [Ht Hload] & Hlen & Hfr & Hrec & Hlog & Hs & Hn).
  { by split. }
  { exact Hrows. }
  rewrite app_nil_r in Hrun. change (mem w0) with (mem w) in *.
  assert (l < length (mem w)) as Hl by (by eapply read_lt).
  assert (read (mem w') l path = Some (VSlice es)) as Hold.
  { unfold read in *. by rewrite Hfr. }
  assert (exists w'',
    call (LoadAll b (Iface (TPtr (TSlice (TPtr (TStruct fields)))) (VPtr l path))) w
    = (Returned (length (yields rows), rows_err fullSql (Err rows)), w'')
    /\ mem w''
       = write (mem w') l path
           (VSlice (es ++ new_pointers (length (mem w)) (length (yields rows))))
    /\ exists evs', log w'' = log w' ++ [Next_ false; Set_ l] ++ evs'
         /\ count is_Set evs' = 0 /\ count is_Next_true evs' = 0)
    as (w'' & Hcall & Hmem & evs' & Hlog' & Hs' & Hn').
  { unfold LoadAll, call. unfold bind at 1. rewrite LoadAll_dest_slice.
    go. rewrite Hi, Hq, Hc, Hfm. simpl. fold w0. rewrite Hrun. simpl.
    unfold Value_Set. go. rewrite Hload. cbn [mem log].
    destruct (Err rows) as [err|]; (eexists; split; [reflexivity|]);
      (split; [reflexivity|]); cbn [log]; eexists;
      (split; [rewrite <- !app_assoc; simpl; reflexivity|done]). }
  exists w''. split; [done|]. rewrite Hmem, Hlog', Hlog.
  split; [by eapply read_write|].
  split; [by rewrite length_write|].
  split.
  { intros i r Hr. rewrite lookup_write_ne by lia. by apply Hrec. }
  split.
  { intros l' Hl' Hne. rewrite lookup_write_ne by done. by apply Hfr. }
  subst w0. cbn [log]. rewrite !count_app, Hs, Hn, Hs', Hn'.
  unfold count. simpl. split; lia.
Qed.

Lemma LoadAll_slice_fails b fields l path es w fullSql rows cols fm
    pre bad post op err :
  Interpolate (ToSql b).1 (ToSql b).2 = Ok fullSql ->
  runner_Query b fullSql = Ok rows ->
  Columns rows = Ok cols ->
  calculateFieldMap (TStruct fields) cols false = Ok fm ->
  read (mem w) l path = Some (VSlice es) ->
  yields rows = pre ++ bad :: post ->
  (forall i r, pre !! i = Some r ->
     row_error (TStruct fields) fm (length (mem w) + i) r = None) ->
  row_error (TStruct fields) fm (length (mem w) + length pre) bad = Some (op, err) ->
  exists w',
    call (LoadAll b (Iface (TPtr (TSlice (TPtr (TStruct fields)))) (VPtr l path))) w
    = (Returned (length pre, Some (Tagged op {["sql" := fullSql]} err)), w')
    /\ (forall l', l' < length (mem w) -> mem w' !! l' = mem w !! l')
    /\ count is_Set (log w') = count is_Set (log w)
    /\ count is_Next_true (log w') = count is_Next_true (log w) + length pre + 1
    /\ EventErrKv_ op err {["sql" := fullSql]} ∈ log w'.
Proof.
  intros Hi Hq Hc Hfm Hread Hy Hrows Hbad.
  set (w0 := mkWorld (mem w) ((log w ++ [Query_ fullSql]) ++ [Columns_])).
  destruct (for_Next_prefix Hwithin fullSql (TStruct fields) fm
              (TPtr (TStruct fields)) pre (bad :: post)
              (Var (TSlice (TPtr (TStruct fields))) l path) 0 w0 es)
    as (sv' & w' & evs & Hrun & _ & Hlen & Hfr & _ & Hlog & Hs & Hn).
  { by split. }
  { exact Hrows. }
  change (mem w0) with (mem w) in *.
  set (w1 := mkWorld (mem w') (log w' ++ [Next_ true])).
  destruct (LoadAll_row_fails Hwithin fullSql (TStruct fields) fm bad sv'
              (length pre) w1 op err)
    as (h' & evs1 & Hrow & Hfr1 & Hs1 & Hn1).
  { simpl. by rewrite Hlen. }
  change (mem w1) with (mem w') in *.
  eexists. split.
  { unfold LoadAll, call. unfold bind at 1. rewrite LoadAll_dest_slice.
    go. rewrite Hi, Hq, Hc, Hfm. simpl. fold w0. rewrite Hy, Hrun. simpl.
    unfold bind at 1, emit at 1. fold w1. simpl in Hrow.
    unfold bind at 1. rewrite Hrow. reflexivity. }
  cbn [mem log]. rewrite Hlog. subst w0. cbn [log].
  split; [intros l' Hl'; rewrite Hfr1 by lia; by apply Hfr|].
  rewrite !count_app, Hs, Hn, Hs1, Hn1. unfold count. simpl.
  split; [lia|]. split; [lia|].
  rewrite !elem_of_app, !list_elem_of_singleton. tauto.
Qed.

(** The map branch of [LoadAll] is empty: no row is read. *)
Lemma LoadAll_map b dest valueOfDest recordType w fullSql rows cols fm :
  LoadAll_dest (R:=nat * option error) dest w
  = (Step (valueOfDest, reflect.Map, recordType), w) ->
  Interpolate (ToSql b).1 (ToSql b).2 = Ok fullSql ->
  runner_Query b fullSql = Ok rows ->
  Columns rows = Ok cols ->
  calculateFieldMap recordType cols false = Ok fm ->
  call (LoadAll b dest) w
  = (Returned (0, rows_err fullSql (Err rows)),
     mkWorld (mem w)
       (log w ++ [Query_ fullSql; Columns_; Err_]
              ++ rows_err_events fullSql (Err rows)
              ++ [Close_; TimingKv_ "dbr.select" {["sql" := fullSql]}])).
Proof.
  intros Hd Hi Hq Hc Hfm.
  unfold LoadAll, call. unfold bind at 1. rewrite Hd.
  go. rewrite Hi, Hq, Hc, Hfm. simpl.
  destruct (Err rows); simpl; by rewrite <- !app_assoc.
Qed.

(** [LoadAll] when the field map cannot be built. *)
Lemma LoadAll_fieldMap_fails b dest d w fullSql rows cols err :
  LoadAll_dest (R:=nat * option error) dest w = (Step d, w) ->
  Interpolate (ToSql b).1 (ToSql b).2 = Ok fullSql ->
  runner_Query b fullSql = Ok rows ->
  Columns rows = Ok cols ->
  calculateFieldMap d.2 cols false = Fail err ->
  call (LoadAll b dest) w
  = (Returned (0, Some (Tagged "dbr.select.load_all.calculateFieldMap"
                          {["sql" := fullSql]} err)),
     mkWorld (mem w)
       (log w ++ [Query_ fullSql; Columns_;
                  EventErrKv_ "dbr.select.load_all.calculateFieldMap" err
                    {["sql" := fullSql]};
                  Close_; TimingKv_ "dbr.select" {["sql" := fullSql]}])).
Proof.
  intros Hd Hi Hq Hc Hfm. destruct d as [[valueOfDest kindOfDest] recordType].
  unfold LoadAll, call. unfold bind at 1. rewrite Hd.
  go. simpl in Hfm. rewrite Hi, Hq, Hc, Hfm. simpl. by rewrite <- !app_assoc.
Qed.

(** [LoadAll] into a slice when the cursor yields nothing. *)
Lemma LoadAll_slice_empty b fields l path x w fullSql rows cols fm :
  Interpolate (ToSql b).1 (ToSql b).2 = Ok fullSql ->
  runner_Query b fullSql = Ok rows ->
  Columns rows = Ok cols ->
  calculateFieldMap (TStruct fields) cols false = Ok fm ->
  read (mem w) l path = Some x ->
  yields rows = [] ->
  call (LoadAll b (Iface (TPtr (TSlice (TPtr (TStruct fields)))) (VPtr l path))) w
  = (Returned (0, rows_err fullSql (Err rows)),
     mkWorld (mem w)
       (log w ++ [Query_ fullSql; Columns_; Next_ false; Set_ l; Err_]
              ++ rows_err_events fullSql (Err rows)
              ++ [Close_; TimingKv_ "dbr.select" {["sql" := fullSql]}])).
Proof.
  intros Hi Hq Hc Hfm Hread Hy.
  unfold LoadAll, call. unfold bind at 1. rewrite LoadAll_dest_slice.
  go. rewrite Hi, Hq, Hc, Hfm. simpl. rewrite Hy. simpl.
  unfold Value_Set. go. simpl. rewrite Hread. cbn [mem log].
  rewrite (write_read _ _ _ _ Hread).
  destruct (Err rows); simpl; by rewrite <- !app_assoc.
Qed.
End LoadAllFacts.

(** ** The holder builder of the spec *)

Lemma targets_within t l base fm holder :
  targets t l base fm = Ok holder -> within l holder.
Proof.
  revert holder. induction fm as [|entry fm IH]; intros holder Ht; simpl in Ht.
  - simplify_eq. constructor.
  - destruct (targets t l base fm) as [ds|] eqn:Hds.
    + destruct entry as [p|]; [destruct (field_type t p)|]; simplify_eq;
        (constructor; [intros; by simplify_eq|by apply IH]).
    + destruct entry as [p|]; [destruct (field_type t p)|]; simplify_eq.
  Qed.

Lemma spec_holders_within NameMapping interpolate convert :
  holders_within (pkg := spec_Collaborators NameMapping interpolate convert).
Proof.
  unfold holders_within. simpl. intros t l path fm holder Hh.
  by eapply targets_within.
Qed.

(** ** [LoadOne] *)

Section LoadOneFacts.
Context {pkg : Collaborators}.

Lemma LoadOne_not_found b fields l path w fullSql rows cols fm :
  Interpolate (ToSql b).1 (ToSql b).2 = Ok fullSql ->
  runner_Query b fullSql = Ok rows ->
  Columns rows = Ok cols ->
  calculateFieldMap (TStruct fields) cols false = Ok fm ->
  yields rows = [] ->
  Err rows = None ->
  call (LoadOne b (Iface (TPtr (TStruct fields)) (VPtr l path))) w
  = (Returned (Some ErrNotFound),
     mkWorld (mem w)
       (log w ++ [Query_ fullSql; Columns_; Next_ false; Err_; Close_;
                  TimingKv_ "dbr.select" {["sql" := fullSql]}])).
Proof.
  intros Hi Hq Hc Hfm Hy He. unfold LoadOne, reflect_Indirect. simpl. go.
  unfold Value_Elem. simpl. rewrite Hi, Hq, Hc, Hfm, Hy. simpl. rewrite He.
  simpl. by rewrite <- !app_assoc.
Qed.

Lemma LoadOne_fieldMap_fails b fields l path w fullSql rows cols err :
  Interpolate (ToSql b).1 (ToSql b).2 = Ok fullSql ->
  runner_Query b fullSql = Ok rows ->
  Columns rows = Ok cols ->
  calculateFieldMap (TStruct fields) cols false = Fail err ->
  call (LoadOne b (Iface (TPtr (TStruct fields)) (VPtr l path))) w
  = (Returned (Some (Tagged "dbr.select.load_one.calculateFieldMap"
                       {["sql" := fullSql]} err)),
     mkWorld (mem w)
       (log w ++ [Query_ fullSql; Columns_;
                  EventErrKv_ "dbr.select.load_one.calculateFieldMap" err
                    {["sql" := fullSql]};
                  Close_; TimingKv_ "dbr.select" {["sql" := fullSql]}])).
Proof.
  intros Hi Hq Hc Hfm. unfold LoadOne, reflect_Indirect. simpl. go.
  unfold Value_Elem. simpl. rewrite Hi, Hq, Hc, Hfm. simpl.
  by rewrite <- !app_assoc.
Qed.

(** [LoadOne] when the first row scans: one row read, one scan, into the
    caller's variable. *)
Lemma LoadOne_first_row b fields l path w fullSql rows cols fm r rest holder :
  Interpolate (ToSql b).1 (ToSql b).2 = Ok fullSql ->
  runner_Query b fullSql = Ok rows ->
  Columns rows = Ok cols ->
  calculateFieldMap (TStruct fields) cols false = Ok fm ->
  yields rows = r :: rest ->
  holderFor (Var (TStruct fields) l path) fm = Ok holder ->
  (scan r holder (mem w)).2 = None ->
  call (LoadOne b (Iface (TPtr (TStruct fields)) (VPtr l path))) w
  = (Returned None,
     mkWorld (scan r holder (mem w)).1
       (log w ++ [Query_ fullSql; Columns_; Next_ true; Scan_ holder true; Close_;
                  TimingKv_ "dbr.select" {["sql" := fullSql]}])).
Proof.
  intros Hi Hq Hc Hfm Hy Hh Hs. unfold LoadOne, reflect_Indirect. simpl. go.
  unfold Value_Elem. simpl. rewrite Hi, Hq, Hc, Hfm, Hy. simpl. rewrite Hh.
  unfold rows_Scan. cbn [mem log].
  destruct (scan r holder (mem w)) as [h err]. simpl in Hs. subst err.
  simpl. by rewrite <- !app_assoc.
Qed.
End LoadOneFacts.

Section LoadValueMore.
Context {pkg : Collaborators}.

Lemma LoadValue_not_found b t v w fullSql rows :
  Interpolate (ToSql b).1 (ToSql b).2 = Ok fullSql ->
  runner_Query b fullSql = Ok rows ->
  yields rows = [] ->
  Err rows = None ->
  call (LoadValue b (Iface (TPtr t) v)) w
  = (Returned (Some ErrNotFound),
     mkWorld (mem w)
       (log w ++ [Query_ fullSql; Next_ false; Err_; Close_;
                  TimingKv_ "dbr.select" {["sql" := fullSql]}])).
Proof.
  intros Hi Hq Hy He. unfold LoadValue. simpl. go.
  rewrite Hi, Hq, Hy. simpl. rewrite He. simpl. by rewrite <- !app_assoc.
Qed.
End LoadValueMore.

(** ** Errors and the event sink *)

Section InterpolateFails.
Context {pkg : Collaborators}.

Lemma LoadAll_interpolate_fails b dest d w err :
  LoadAll_dest (R := nat * option error) dest w = (Step d, w) ->
  Interpolate (ToSql b).1 (ToSql b).2 = Fail err ->
  call (LoadAll b dest) w
  = (Returned (0, Some (Tagged "dbr.select.load_all.interpolate" ∅ err)),
     mkWorld (mem w) (log w ++ [EventErr_ "dbr.select.load_all.interpolate" err])).
Proof.
  intros Hd Hi. destruct d as [[valueOfDest kindOfDest] recordType].
  unfold LoadAll, call. unfold bind at 1. rewrite Hd. go. by rewrite Hi.
Qed.

Lemma LoadOne_interpolate_fails b fields l path w err :
  Interpolate (ToSql b).1 (ToSql b).2 = Fail err ->
  call (LoadOne b (Iface (TPtr (TStruct fields)) (VPtr l path))) w
  = (Returned (Some err), w).
Proof.
  intros Hi. unfold LoadOne, reflect_Indirect. simpl. go.
  unfold Value_Elem. simpl. by rewrite Hi.
Qed.

Lemma LoadValue_interpolate_fails b t v w err :
  Interpolate (ToSql b).1 (ToSql b).2 = Fail err ->
  call (LoadValue b (Iface (TPtr t) v)) w = (Returned (Some err), w).
Proof. intros Hi. unfold LoadValue. simpl. go. by rewrite Hi. Qed.

(** Past interpolation, what [LoadOne] returns is nil, [ErrNotFound], or an
    error that went through the event sink. *)
Lemma LoadOne_errors b fields l path w fullSql e w' :
  Interpolate (ToSql b).1 (ToSql b).2 = Ok fullSql ->
  call (LoadOne b (Iface (TPtr (TStruct fields)) (VPtr l path))) w
  = (Returned (Some e), w') ->
  e = ErrNotFound \/ forwarded fullSql e w'.
Proof.
  intros Hi. unfold LoadOne, reflect_Indirect. simpl. go.
  unfold Value_Elem, rows_Scan. simpl. rewrite Hi.
  intros Hcall. repeat case_match; simplify_eq; auto; right;
    do 2 eexists; (split; [reflexivity|]); cbn [log];
    rewrite !elem_of_app, ?list_elem_of_singleton; tauto.
Qed.

Lemma LoadValue_errors b t v w fullSql e w' :
  Interpolate (ToSql b).1 (ToSql b).2 = Ok fullSql ->
  call (LoadValue b (Iface (TPtr t) v)) w = (Returned (Some e), w') ->
  e = ErrNotFound \/ forwarded fullSql e w'.
Proof.
  intros Hi. unfold LoadValue. simpl. go. unfold rows_Scan. rewrite Hi.
  intros Hcall. repeat case_match; simplify_eq; auto; right;
    do 2 eexists; (split; [reflexivity|]); cbn [log];
    rewrite !elem_of_app, ?list_elem_of_singleton; tauto.
Qed.

Lemma forwarded_mono fullSql e w w' evs :
  forwarded fullSql e w -> log w' = log w ++ evs -> forwarded fullSql e w'.
Proof.
  intros (eventName & cause & -> & Hin) Hlog. exists eventName, cause.
  split; [done|]. rewrite Hlog, elem_of_app. by left.
Qed.

Lemma LoadAll_row_return fullSql recordType fm r s w res w' :
  LoadAll_row fullSql recordType fm r s w = (Return res, w') ->
  exists e, res.2 = Some e /\ forwarded fullSql e w'.
Proof.
  destruct s as [sliceValue n].
  unfold LoadAll_row, reflect_New, reflect_Indirect, rows_Scan, reflect_Append.
  simpl. go. unfold Value_Elem. simpl. intros Hrow.
  repeat case_match; simplify_eq; eexists; (split; [reflexivity|]);
    do 2 eexists; (split; [reflexivity|]); cbn [log];
    rewrite !elem_of_app, ?list_elem_of_singleton; tauto.
Qed.

Lemma for_Next_return fullSql recordType fm pending s w res w' :
  for_Next pending (LoadAll_row fullSql recordType fm) s w = (Return res, w') ->
  exists e, res.2 = Some e /\ forwarded fullSql e w'.
Proof.
  revert s w. induction pending as [|r pending IH]; intros s w; simpl.
  - go. done.
  - unfold bind at 1, emit at 1. unfold bind at 1.
    destruct (LoadAll_row fullSql recordType fm r s _) as [[s'|res'|msg] w1] eqn:Hrow.
    + apply IH.
    + intros ?; simplify_eq. by eapply LoadAll_row_return.
    + done.
Qed.

(** Past interpolation, an error [LoadAll] returns went through the event
    sink. *)
Lemma LoadAll_errors b dest w fullSql n e w' :
  Interpolate (ToSql b).1 (ToSql b).2 = Ok fullSql ->
  call (LoadAll b dest) w = (Returned (n, Some e), w') ->
  forwarded fullSql e w'.
Proof.
  intros Hi. unfold LoadAll, call. unfold bind at 1.
  destruct (LoadAll_dest_pure (R := nat * option error) dest w)
    as [[msg ->]|[[[valueOfDest kindOfDest] recordType] ->]]; [done|].
  go. rewrite Hi. simpl.
  destruct (runner_Query b fullSql) as [rows|err]; simpl; cycle 1.
  { intros ?; simplify_eq. do 2 eexists. split; [reflexivity|]. cbn [log].
    rewrite !elem_of_app, ?list_elem_of_singleton; tauto. }
  destruct (Columns rows) as [cols|err]; simpl; cycle 1.
  { intros ?; simplify_eq. do 2 eexists. split; [reflexivity|]. cbn [log].
    rewrite !elem_of_app, ?list_elem_of_singleton; tauto. }
  destruct (calculateFieldMap recordType cols false) as [fm|err]; simpl; cycle 1.
  { intros ?; simplify_eq. do 2 eexists. split; [reflexivity|]. cbn [log].
    rewrite !elem_of_app, ?list_elem_of_singleton; tauto. }
  destruct (decide (kindOfDest = reflect.Slice)); simpl.
  - destruct (for_Next (yields rows) _ _ _) as [[[sv k]|res|msg] w1] eqn:Hloop;
      simpl; [| |done].
    + unfold Value_Set. go.
      repeat case_match; simplify_eq; intros ?; simplify_eq;
        do 2 eexists; (split; [reflexivity|]); cbn [log];
        rewrite !elem_of_app, ?list_elem_of_singleton; tauto.
    + intros ?; simplify_eq.
      destruct (for_Next_return _ _ _ _ _ _ _ _ Hloop) as (e' & He & Hf).
      simpl in He. simplify_eq.
      eapply forwarded_mono; [exact Hf|]. cbn [log]. by rewrite <- app_assoc.
  - destruct (Err rows); simpl; intros ?; simplify_eq.
    do 2 eexists. split; [reflexivity|]. cbn [log].
    rewrite !elem_of_app, ?list_elem_of_singleton; tauto.
Qed.
End InterpolateFails.

(** ** The field mapper of the spec *)

Section MapperFacts.
Variable NameMapping : string -> string.

(** A field that is not excluded and matches no column stops the
    non-tolerant mapper. *)
Lemma mapFields_unmapped rt columns f :
  f ∈ rt ->
  excluded f = false ->
  (forall c, c ∈ columns -> lower c <> lower (columnName NameMapping f)) ->
  exists name, mapFields NameMapping rt columns false = Fail (UnmappedFieldError name).
Proof.
  intros Hf Hex Hcols. unfold mapFields.
  destruct (List.find _ rt) as [g|] eqn:Hfind; [by eexists|].
  exfalso. apply list_elem_of_In in Hf.
  pose proof (List.find_none _ _ Hfind f Hf) as Hnone. simpl in Hnone.
  rewrite Hex in Hnone. simpl in Hnone.
  apply negb_false_iff, List.existsb_exists in Hnone as (c & Hc & Hm).
  apply list_elem_of_In in Hc. unfold matches in Hm. rewrite Hex in Hm.
  simpl in Hm. apply bool_decide_eq_true in Hm. by eapply Hcols.
Qed.

Lemma spec_calculateFieldMap_unmapped recordType rt columns f :
  describe NameMapping recordType = Ok rt ->
  f ∈ rt ->
  excluded f = false ->
  (forall c, c ∈ columns -> lower c <> lower (columnName NameMapping f)) ->
  exists name,
    spec_calculateFieldMap NameMapping recordType columns false
    = Fail (UnmappedFieldError name).
Proof.
  intros Hd Hf Hex Hcols. unfold spec_calculateFieldMap. rewrite Hd.
  by eapply mapFields_unmapped.
Qed.
End MapperFacts.

(** ** Scanning into the fields of one record *)

Lemma part_app p q v : part (p ++ q) v = part p v ≫= part q.
Proof.
  revert v. induction p as [|i p IH]; intros v; simpl; [done|].
  destruct v; try done. destruct (fields !! i); simpl; [apply IH|done].
Qed.

Lemma part_update_field path j new root vals :
  part path root = Some (VStruct vals) ->
  part path (update (path ++ [j]) new root)
  = Some (VStruct (alter (update [] new) j vals)).
Proof.
  revert root. induction path as [|i p IH]; intros root Hroot; simpl in *.
  - by simplify_eq.
  - destruct root; try done.
    destruct (fields !! i) as [x|] eqn:Hi; simpl in *; [|done].
    rewrite list_lookup_alter_eq, Hi. simpl. by apply IH.
Qed.

Lemma read_write_field h l path j new vals :
  read h l path = Some (VStruct vals) ->
  read (write h l (path ++ [j]) new) l path
  = Some (VStruct (alter (update [] new) j vals)).
Proof.
  unfold read, write. intros Hr.
  destruct (h !! l) as [root|] eqn:Hl; simpl in *; [|done].
  rewrite list_lookup_alter_eq, Hl. simpl. by apply part_update_field.
Qed.

Lemma read_field h l path j vals :
  read h l path = Some (VStruct vals) ->
  read h l (path ++ [j]) = vals !! j.
Proof.
  unfold read. intros Hr. destruct (h !! l) as [root|]; simpl in *; [|done].
  rewrite part_app, Hr. simpl. by destruct (vals !! j).
Qed.

Section ScanTargets.
Variables (NameMapping : string -> string)
          (interpolate : string -> list iface -> result string)
          (convert : type -> datum -> result value).
Variables (fields : list reflect.StructField) (l : loc) (path : list nat).

#[local] Abbreviation pkg := (spec_Collaborators NameMapping interpolate convert).

Lemma scan_targets fm : forall r h vals holder,
  targets (TStruct fields) l path fm = Ok holder ->
  length r = length fm ->
  read h l path = Some (VStruct vals) ->
  (forall i p d, fm !! i = Some (Some p) -> r !! i = Some d ->
     exists j f v, p = [j] /\ fields !! j = Some f
                   /\ convert (reflect.Type_ f) d = Ok v) ->
  exists h' vals',
    convertAssignRow (pkg := pkg) holder r h = (h', None)
    /\ read h' l path = Some (VStruct vals')
    /\ length vals' = length vals
    /\ length h' = length h
    /\ (forall l', l' <> l -> h' !! l' = h !! l')
    /\ forall j,
        (Some [j] ∈ fm ->
           exists i d f v,
             fm !! i = Some (Some [j]) /\ r !! i = Some d
             /\ fields !! j = Some f /\ convert (reflect.Type_ f) d = Ok v
             /\ (j < length vals -> vals' !! j = Some v))
        /\ (Some [j] ∉ fm -> vals' !! j = vals !! j).
Proof.
  induction fm as [|entry fm IH]; intros r h vals holder Ht Hlen Hread Hconv.
  - destruct r; [|done]. simpl in Ht. simplify_eq.
    exists h, vals. repeat split; try done.
    intros Hin. by apply elem_of_nil in Hin.
  - destruct r as [|d r]; [done|]. simpl in Ht, Hlen.
    destruct entry as [p|].
    + destruct (Hconv 0 p d eq_refl eq_refl) as (j0 & f0 & v0 & -> & Hf0 & Hv0).
      simpl in Ht. rewrite Hf0 in Ht. simpl in Ht.
      destruct (targets (TStruct fields) l path fm) as [ds|] eqn:Hds; [|done].
      simplify_eq.
      set (h1 := write h l (path ++ [j0]) v0).
      destruct (IH r h1 (alter (update [] v0) j0 vals) ds eq_refl)
        as (h' & vals' & Hrow & Hread' & Hlen' & Hlenh & Hfr & Hfields).
      { lia. }
      { by apply read_write_field. }
      { intros i p d' Hi Hd'. apply (Hconv (S i) p d' Hi Hd'). }
      rewrite length_alter in Hlen'.
      exists h', vals'. split.
      { simpl. rewrite Hv0. fold h1. exact Hrow. }
      split; [done|]. split; [done|].
      split; [by rewrite Hlenh; unfold h1; rewrite length_write|].
      split.
      { intros l' Hne. rewrite Hfr by done. unfold h1. by rewrite lookup_write_ne. }
      intros j. destruct (Hfields j) as [Hin Hout]. split.
      * intros Hj. destruct (decide (Some [j] ∈ fm)) as [Hfm|Hfm].
        -- destruct (Hin Hfm) as (i & d' & f & v & Hi & Hd' & Hf & Hv & Hval).
           exists (S i), d', f, v. repeat split; try done.
           intros Hlt. apply Hval. by rewrite length_alter.
        -- apply elem_of_cons in Hj as [Hj|Hj]; [|done].
           assert (j = j0) as -> by congruence.
           exists 0, d, f0, v0. repeat split; try done.
           intros Hlt. rewrite (Hout Hfm), list_lookup_alter_eq.
           destruct (lookup_lt_is_Some_2 vals j0 Hlt) as [x ->]. done.
      * intros Hj. apply not_elem_of_cons in Hj as [Hne Hj].
        rewrite (Hout Hj), list_lookup_alter_ne; [done|]. congruence.
    + simpl in Ht.
      destruct (targets (TStruct fields) l path fm) as [ds|] eqn:Hds; [|done].
      simplify_eq.
      destruct (IH r h vals ds eq_refl) as (h' & vals' & Hrow & Hrest).
      { lia. }
      { done. }
      { intros i p d' Hi Hd'. apply (Hconv (S i) p d' Hi Hd'). }
      exists h', vals'. split; [exact Hrow|].
      destruct Hrest as (? & ? & ? & ? & Hfields). repeat split; try done.
      * intros Hj. apply elem_of_cons in Hj as [Hj|Hj]; [done|].
        destruct (Hfields j) as [Hin _].
        destruct (Hin Hj) as (i & d' & f & v & Hi & Hd' & Hf & Hv & Hval).
        exists (S i), d', f, v. by repeat split.
      * intros Hj. apply not_elem_of_cons in Hj as [_ Hj].
        by apply Hfields.
Qed.

(** The targets exist whenever the paths of the map are fields. *)
Lemma targets_exist fm :
  (forall i p, fm !! i = Some (Some p) -> exists j f, p = [j] /\ fields !! j = Some f) ->
  exists holder,
    targets (TStruct fields) l path fm = Ok holder /\ length holder = length fm.
Proof.
  induction fm as [|entry fm IH]; intros Hwf; simpl.
  - by exists [].
  - destruct IH as (ds & -> & Hlen).
    { intros i p Hi. apply (Hwf (S i) p Hi). }
    destruct entry as [p|].
    + destruct (Hwf 0 p eq_refl) as (j & f & -> & Hf). simpl. rewrite Hf. simpl.
      eexists. split; [done|]. simpl. by rewrite Hlen.
    + eexists. split; [done|]. simpl. by rewrite Hlen.
Qed.
End ScanTargets.

(** ** The field map of the spec *)

Section FieldMapFacts.
Variable NameMapping : string -> string.

Lemma fieldSpecs_elem fields g :
  g ∈ fieldSpecs (TStruct fields) ->
  exists f, fields !! position g = Some f /\ exported f = true
            /\ g = fieldSpec_of (position g) f.
Proof.
  unfold fieldSpecs. intros Hg.
  apply list_elem_of_omap in Hg as ([j f] & Hjf & Hsome).
  apply elem_of_lookup_imap in Hjf as (i & y & Heq & Hy). simplify_eq/=.
  destruct (exported y) eqn:He; simplify_eq/=. by exists y.
Qed.

(** Every entry of a field map is a field of the structure, exported, and
    matched by the name of its column. *)
Lemma spec_calculateFieldMap_entries fields cols tolerant fm :
  spec_calculateFieldMap NameMapping (TStruct fields) cols tolerant = Ok fm ->
  length fm = length cols
  /\ forall i p, fm !! i = Some (Some p) ->
       exists j f c, p = [j] /\ fields !! j = Some f /\ exported f = true
                     /\ cols !! i = Some c
                     /\ matches NameMapping c (fieldSpec_of j f) = true.
Proof.
  unfold spec_calculateFieldMap, describe, mapFields.
  destruct (ambiguous _); [done|].
  set (fm0 := (fun column => _) <$> cols).
  intros Hfm. assert (fm = fm0) as ->.
  { destruct tolerant; [by simplify_eq|]. by destruct (List.find _ _); simplify_eq. }
  clear Hfm. split; [by unfold fm0; rewrite length_fmap|].
  intros i p Hi. unfold fm0 in Hi. rewrite list_lookup_fmap in Hi.
  destruct (cols !! i) as [c|] eqn:Hc; simplify_eq/=.
  destruct (List.find (matches NameMapping c) _) as [g|] eqn:Hfind; simplify_eq/=.
  apply List.find_some in Hfind as [Hin Hm]. apply list_elem_of_In in Hin.
  destruct (fieldSpecs_elem fields g Hin) as (f & Hf & He & Hg).
  exists (position g), f, c. repeat split; try done. by rewrite <- Hg.
Qed.
End FieldMapFacts.

(** * The claims *)

(** C1. [LoadAll] into a slice, when every row scans: the count returned is
    the number of rows the cursor yielded; the destination holds what it
    held before followed by one new record pointer per row, in row order,
    the [i]-th pointing at the record scanned from the [i]-th row; and a
    second [LoadAll] into the same destination, now not empty, appends its
    own rows after those.  [holderFor] is any function whose targets lie in
    the record it is given. *)
Theorem LoadAll_slice_accumulates {pkg : Collaborators}
    b fields l path es w fullSql rows cols fm :
  holders_within ->
  Interpolate (ToSql b).1 (ToSql b).2 = Ok fullSql ->
  runner_Query b fullSql = Ok rows ->
  Columns rows = Ok cols ->
  calculateFieldMap (TStruct fields) cols false = Ok fm ->
  read (mem w) l path = Some (VSlice es) ->
  (forall i r, yields rows !! i = Some r ->
     row_error (TStruct fields) fm (length (mem w) + i) r = None) ->
  let dest := Iface (TPtr (TSlice (TPtr (TStruct fields)))) (VPtr l path) in
  let n := length (yields rows) in
  exists w',
    call (LoadAll b dest) w = (Returned (n, rows_err fullSql (Err rows)), w')
    /\ read (mem w') l path = Some (VSlice (es ++ new_pointers (length (mem w)) n))
    /\ length (es ++ new_pointers (length (mem w)) n) = length es + n
    /\ (forall i r, yields rows !! i = Some r ->
          (es ++ new_pointers (length (mem w)) n) !! (length es + i)
          = Some (VPtr (length (mem w) + i) [])
          /\ mem w' !! (length (mem w) + i)
             = scanned_record (TStruct fields) fm (length (mem w) + i) r)
    /\ (forall b2 fullSql2 rows2 cols2 fm2,
          Interpolate (ToSql b2).1 (ToSql b2).2 = Ok fullSql2 ->
          runner_Query b2 fullSql2 = Ok rows2 ->
          Columns rows2 = Ok cols2 ->
          calculateFieldMap (TStruct fields) cols2 false = Ok fm2 ->
          (forall i r, yields rows2 !! i = Some r ->
             row_error (TStruct fields) fm2 (length (mem w') + i) r = None) ->
          exists w'',
            call (LoadAll b2 dest) w'
            = (Returned (length (yields rows2), rows_err fullSql2 (Err rows2)), w'')
            /\ read (mem w'') l path
               = Some (VSlice (es ++ new_pointers (length (mem w)) n
                                  ++ new_pointers (length (mem w')) (length (yields rows2))))).
Proof.
  intros Hwithin Hi Hq Hc Hfm Hread Hrows dest n.
  destruct (LoadAll_slice_loads Hwithin b fields l path es w fullSql rows cols fm)
    as (w' & Hcall & Hdest & Hlen & Hrec & _); try done.
  exists w'. split; [done|]. split; [done|].
  split; [by rewrite length_app, length_new_pointers|].
  split.
  { intros i r Hr. split; [|by apply Hrec].
    rewrite lookup_app_r by lia.
    replace (length es + i - length es) with i by lia.
    unfold new_pointers. rewrite list_lookup_fmap, lookup_seq_lt; [done|].
    by eapply lookup_lt_Some. }
  intros b2 fullSql2 rows2 cols2 fm2 Hi2 Hq2 Hc2 Hfm2 Hrows2.
  destruct (LoadAll_slice_loads Hwithin b2 fields l path
              (es ++ new_pointers (length (mem w)) n) w' fullSql2 rows2 cols2 fm2)
    as (w'' & Hcall2 & Hdest2 & _); try done.
  exists w''. split; [done|]. by rewrite Hdest2, <- app_assoc.
Qed.

Lemma LoadAll_slice_accumulates_witness :
  exists w',
    call (LoadAll (pkg := Example.collaborators)
            (Example.select Example.people) Example.slice_address) Example.store
    = (Returned (3, None), w')
    /\ read (mem w') 0 [] = Some (VSlice [VPtr 4 []; VPtr 5 []; VPtr 6 []])
    /\ mem w' !! 5 = Some (Example.person 2 "b").
Proof.
  destruct (LoadAll_slice_accumulates (pkg := Example.collaborators)
              (Example.select Example.people)
              [reflect.Field "ID" "" "" (TBasic reflect.int64_);
               reflect.Field "Name" "" "" (TBasic reflect.string_)]
              0 [] [] Example.store "SELECT id, name FROM people"
              Example.people ["id"; "name"] [Some [0]; Some [1]])
    as (w' & Hcall & Hdest & _ & Hrec & _).
  - apply spec_holders_within.
  - reflexivity.
  - reflexivity.
  - reflexivity.
  - reflexivity.
  - reflexivity.
  - intros [|[|[|i]]] r Hr; simplify_eq/=; reflexivity.
  - exists w'. split; [exact Hcall|]. split; [exact Hdest|].
    destruct (Hrec 1 [DInt 2; DString "b"] eq_refl) as [_ Hr]. exact Hr.
Defined.

(** C2 (the code does not do this). [LoadAll] into a map: the branch for
    maps is empty, so with two rows sharing one key the count returned is
    0, not 2, no row is read, and the map has no entry afterwards. *)
Theorem LoadAll_map_stores_nothing :
  call (LoadAll (pkg := Example.collaborators)
          (Example.select Example.twins) Example.the_map) Example.store
  = (Returned (0, None),
     mkWorld [VSlice []; Example.person 7 "z"; VMapRef 3; VMapObj []]
       [Query_ "SELECT id, name FROM people"; Columns_; Err_; Close_;
        TimingKv_ "dbr.select" {["sql" := "SELECT id, name FROM people"]}]).
Proof.
  apply (LoadAll_map (pkg := Example.collaborators)
           (Example.select Example.twins) Example.the_map
           (Held (TMap (TBasic reflect.int64_) (TPtr Example.Person)) (VMapRef 3))
           Example.Person Example.store "SELECT id, name FROM people"
           Example.twins ["id"; "name"] [Some [0]; Some [1]]); reflexivity.
Qed.

(** C3. A query whose cursor yields no row and reports no error:
    [LoadAll] returns [(0, nil)], whatever the shape of the destination;
    [LoadOne] and [LoadValue] return [ErrNotFound] itself, not an error out
    of the event sink.  Nothing is written. *)
Theorem zero_rows_outcomes {pkg : Collaborators} b dest w fullSql rows :
  Interpolate (ToSql b).1 (ToSql b).2 = Ok fullSql ->
  runner_Query b fullSql = Ok rows ->
  yields rows = [] ->
  Err rows = None ->
  (forall t recordType cols fm,
      dynamic_type dest = Some t ->
      LoadAll_recordType t = Some recordType ->
      valid_pointer (mem w) dest ->
      Columns rows = Ok cols ->
      calculateFieldMap recordType cols false = Ok fm ->
      exists w', call (LoadAll b dest) w = (Returned (0, None), w')
                 /\ mem w' = mem w)
  /\ (forall fields l path cols fm,
      dest = Iface (TPtr (TStruct fields)) (VPtr l path) ->
      Columns rows = Ok cols ->
      calculateFieldMap (TStruct fields) cols false = Ok fm ->
      exists w', call (LoadOne b dest) w = (Returned (Some ErrNotFound), w')
                 /\ mem w' = mem w)
  /\ (forall t v,
      dest = Iface (TPtr t) v ->
      exists w', call (LoadValue b dest) w = (Returned (Some ErrNotFound), w')
                 /\ mem w' = mem w).
Proof.
  intros Hi Hq Hy He. split; [|split].
  - intros t recordType cols fm Ht Hrt Hv Hc Hfm.
    destruct (LoadAll_dest_accepts (R := nat * option error) dest t recordType w
                Ht Hrt Hv)
      as [(key & v & -> & Hd)|[(key & l & path & -> & Hd)|(l & path & x & -> & Hx & Hd)]].
    + eexists. split; [|shelve].
      erewrite LoadAll_map by done. rewrite He. reflexivity.
      Unshelve. done.
    + eexists. split; [|shelve].
      erewrite LoadAll_map by done. rewrite He. reflexivity.
      Unshelve. done.
    + unfold LoadAll_recordType in Hrt. repeat case_match; simplify_eq.
      eexists. split; [erewrite LoadAll_slice_empty by done; rewrite He; reflexivity|done].
  - intros fields l path cols fm -> Hc Hfm.
    eexists. split; [by eapply LoadOne_not_found|done].
  - intros t v ->.
    eexists. split; [by eapply LoadValue_not_found|done].
Qed.

Lemma zero_rows_outcomes_witness :
  (exists w', call (LoadAll (pkg := Example.collaborators)
                      (Example.select Example.empty) Example.slice_address)
                Example.store = (Returned (0, None), w')
              /\ mem w' = mem Example.store)
  /\ (exists w', call (LoadOne (pkg := Example.collaborators)
                        (Example.select Example.empty) Example.person_address)
                  Example.store = (Returned (Some ErrNotFound), w')
                /\ mem w' = mem Example.store)
  /\ (exists w', call (LoadValue (pkg := Example.collaborators)
                        (Example.select Example.empty) Example.person_address)
                  Example.store = (Returned (Some ErrNotFound), w')
                /\ mem w' = mem Example.store).
Proof.
  split; [|split].
  - destruct (zero_rows_outcomes (pkg := Example.collaborators)
                (Example.select Example.empty) Example.slice_address Example.store
                "SELECT id, name FROM people" Example.empty
                eq_refl eq_refl eq_refl eq_refl) as [HAll _].
    apply (HAll _ Example.Person ["id"; "name"] [Some [0]; Some [1]] eq_refl eq_refl);
      [|reflexivity|reflexivity].
    intros t v Heq. injection Heq as <- <-. by exists 0, [], (VSlice []).
  - destruct (zero_rows_outcomes (pkg := Example.collaborators)
                (Example.select Example.empty) Example.person_address Example.store
                "SELECT id, name FROM people" Example.empty
                eq_refl eq_refl eq_refl eq_refl) as (_ & HOne & _).
    apply (HOne _ 1 [] ["id"; "name"] [Some [0]; Some [1]] eq_refl);
      reflexivity.
  - destruct (zero_rows_outcomes (pkg := Example.collaborators)
                (Example.select Example.empty) Example.person_address Example.store
                "SELECT id, name FROM people" Example.empty
                eq_refl eq_refl eq_refl eq_refl) as (_ & _ & HValue).
    apply (HValue _ _ eq_refl).
Defined.

(** C4. With the field mapper of the spec: when a field of the record type
    that is exported and not excluded has a column name that no column of
    the query matches, [LoadAll] and [LoadOne] return the unmapped-field
    error, tagged by the event sink; the cursor was asked for its columns
    and nothing else, no row was read or scanned, and the count of
    [LoadAll] is 0. *)
Theorem unmapped_field_fails_before_scan
    NameMapping interpolate convert b dest w fullSql rows cols recordType rt f :
  let pkg := spec_Collaborators NameMapping interpolate convert in
  interpolate (ToSql b).1 (ToSql b).2 = Ok fullSql ->
  runner_Query b fullSql = Ok rows ->
  Columns rows = Ok cols ->
  describe NameMapping recordType = Ok rt ->
  f ∈ rt ->
  excluded f = false ->
  (forall c, c ∈ cols -> lower c <> lower (columnName NameMapping f)) ->
  (forall t,
      dynamic_type dest = Some t ->
      LoadAll_recordType t = Some recordType ->
      valid_pointer (mem w) dest ->
      exists name,
        call (LoadAll b dest) w
        = (Returned (0, Some (Tagged "dbr.select.load_all.calculateFieldMap"
                                {["sql" := fullSql]} (UnmappedFieldError name))),
           mkWorld (mem w)
             (log w ++ [Query_ fullSql; Columns_;
                        EventErrKv_ "dbr.select.load_all.calculateFieldMap"
                          (UnmappedFieldError name) {["sql" := fullSql]};
                        Close_; TimingKv_ "dbr.select" {["sql" := fullSql]}])))
  /\ (forall fields l path,
      recordType = TStruct fields ->
      dest = Iface (TPtr (TStruct fields)) (VPtr l path) ->
      exists name,
        call (LoadOne b dest) w
        = (Returned (Some (Tagged "dbr.select.load_one.calculateFieldMap"
                             {["sql" := fullSql]} (UnmappedFieldError name))),
           mkWorld (mem w)
             (log w ++ [Query_ fullSql; Columns_;
                        EventErrKv_ "dbr.select.load_one.calculateFieldMap"
                          (UnmappedFieldError name) {["sql" := fullSql]};
                        Close_; TimingKv_ "dbr.select" {["sql" := fullSql]}]))).
Proof.
  intros pkg Hi Hq Hc Hd Hf Hex Hcols.
  destruct (spec_calculateFieldMap_unmapped NameMapping recordType rt cols f
              Hd Hf Hex Hcols) as [name Hfm].
  split.
  - intros t Ht Hrt Hv. exists name.
    destruct (LoadAll_dest_accepts (R := nat * option error) dest t recordType w
                Ht Hrt Hv)
      as [(key & v & -> & Hdest)|[(key & l & path & -> & Hdest)
                                |(l & path & x & -> & Hx & Hdest)]];
      by eapply (LoadAll_fieldMap_fails (pkg := pkg)).
  - intros fields l path -> ->. exists name.
    by eapply (LoadOne_fieldMap_fails (pkg := pkg)).
Qed.

Lemma unmapped_field_fails_before_scan_witness :
  (exists name w',
     call (LoadAll (pkg := Example.collaborators)
             (Example.select Example.ids) Example.slice_address) Example.store
     = (Returned (0, Some (Tagged "dbr.select.load_all.calculateFieldMap"
                             {["sql" := "SELECT id, name FROM people"]}
                             (UnmappedFieldError name))), w')
     /\ count is_Scan (log w') = 0 /\ count is_Next_true (log w') = 0)
  /\ (exists name w',
     call (LoadOne (pkg := Example.collaborators)
             (Example.select Example.ids) Example.person_address) Example.store
     = (Returned (Some (Tagged "dbr.select.load_one.calculateFieldMap"
                          {["sql" := "SELECT id, name FROM people"]}
                          (UnmappedFieldError name))), w')
     /\ count is_Scan (log w') = 0 /\ count is_Next_true (log w') = 0).
Proof.
  assert (forall c : string, c ∈ ["id"] -> lower c <> "name") as Hcols.
  { intros c Hc. apply list_elem_of_singleton in Hc. by subst c. }
  split.
  - destruct (unmapped_field_fails_before_scan lower Example.interpolate
                Example.convert (Example.select Example.ids) Example.slice_address
                Example.store "SELECT id, name FROM people" Example.ids ["id"]
                Example.Person
                [mkFieldSpec "ID" None false 0; mkFieldSpec "Name" None false 1]
                (mkFieldSpec "Name" None false 1)
                eq_refl eq_refl eq_refl eq_refl)
      as [HAll _].
    + rewrite !elem_of_cons. by right; left.
    + reflexivity.
    + exact Hcols.
    + destruct (HAll _ eq_refl eq_refl) as [name Hcall].
      * intros t v Heq. injection Heq as <- <-. by exists 0, [], (VSlice []).
      * exists name. eexists. split; [exact Hcall|]. split; reflexivity.
  - destruct (unmapped_field_fails_before_scan lower Example.interpolate
                Example.convert (Example.select Example.ids) Example.person_address
                Example.store "SELECT id, name FROM people" Example.ids ["id"]
                Example.Person
                [mkFieldSpec "ID" None false 0; mkFieldSpec "Name" None false 1]
                (mkFieldSpec "Name" None false 1)
                eq_refl eq_refl eq_refl eq_refl)
      as [_ HOne].
    + rewrite !elem_of_cons. by right; left.
    + reflexivity.
    + exact Hcols.
    + destruct (HOne _ 1 [] eq_refl eq_refl) as [name Hcall].
      exists name. eexists. split; [exact Hcall|]. split; reflexivity.
Defined.

(** C5 as stated fails: the address of a map of record pointers is neither
    a map nor the address of a slice, and [LoadAll] goes on with it. *)
Lemma LoadAll_accepts_map_address :
  shaped map_or_slice_address Example.map_address = false
  /\ call (LoadAll (pkg := Example.collaborators)
            (Example.select Example.people) Example.map_address) Example.store
     = (Returned (0, None),
        mkWorld (mem Example.store)
          [Query_ "SELECT id, name FROM people"; Columns_; Err_; Close_;
           TimingKv_ "dbr.select" {["sql" := "SELECT id, name FROM people"]}]).
Proof.
  split; [reflexivity|].
  apply (LoadAll_map (pkg := Example.collaborators)
           (Example.select Example.people) Example.map_address
           (Var (TMap (TBasic reflect.int64_) (TPtr Example.Person)) 2 [])
           Example.Person Example.store "SELECT id, name FROM people"
           Example.people ["id"; "name"] [Some [0]; Some [1]]); reflexivity.
Qed.

(** C5 (amended). A destination of [LoadAll] that is not a map of record
    pointers, nor the address of such a map, nor the address of a slice of
    record pointers, and a destination of [LoadOne] that is not the address
    of a structure, make the loader panic: nothing is returned, and the
    state is the one before the call, so no query was run. *)
Theorem contract_violation_panics {pkg : Collaborators} b dest w :
  (shaped LoadAll_shape dest = false ->
     exists msg, call (LoadAll b dest) w = (Panicked msg, w))
  /\ (shaped record_pointer dest = false ->
     exists msg, call (LoadOne b dest) w = (Panicked msg, w)).
Proof. split; [apply LoadAll_rejects|apply LoadOne_rejects]. Qed.

Lemma contract_violation_panics_witness :
  (exists msg,
     call (LoadAll (pkg := Example.collaborators) (Example.select Example.people)
             (Iface (TSlice (TPtr Example.Person)) (VSlice []))) Example.store
     = (Panicked msg, Example.store))
  /\ (exists msg,
     call (LoadOne (pkg := Example.collaborators) (Example.select Example.people)
             (Iface Example.Person (Example.person 7 "z"))) Example.store
     = (Panicked msg, Example.store)).
Proof.
  split.
  - apply (contract_violation_panics (pkg := Example.collaborators)). reflexivity.
  - apply (contract_violation_panics (pkg := Example.collaborators)). reflexivity.
Defined.

(** C6. With the field mapper and the holder builder of the spec: when
    every exported field of the record type is mapped to by a column, and
    the first row has one value per column, each converting to the type of
    its field, [LoadOne] returns nil; every exported field of the caller's
    structure then holds the converted value of a column mapped to it,
    taken from the first row; the structure is written where it is, the
    store has no new variable; and the cursor is asked for one row and
    scanned once, the rows after the first are never read. *)
Theorem LoadOne_populates_from_first_row
    NameMapping interpolate convert b fields l path vals w fullSql rows cols fm
    r rest :
  let pkg := spec_Collaborators NameMapping interpolate convert in
  let dest := Iface (TPtr (TStruct fields)) (VPtr l path) in
  interpolate (ToSql b).1 (ToSql b).2 = Ok fullSql ->
  runner_Query b fullSql = Ok rows ->
  Columns rows = Ok cols ->
  spec_calculateFieldMap NameMapping (TStruct fields) cols false = Ok fm ->
  (forall j f, fields !! j = Some f -> exported f = true -> Some [j] ∈ fm) ->
  read (mem w) l path = Some (VStruct vals) ->
  length vals = length fields ->
  yields rows = r :: rest ->
  length r = length cols ->
  (forall i j f d, fm !! i = Some (Some [j]) -> fields !! j = Some f ->
     r !! i = Some d -> exists v, convert (reflect.Type_ f) d = Ok v) ->
  exists w' holder,
    call (LoadOne b dest) w = (Returned None, w')
    /\ log w' = log w ++ [Query_ fullSql; Columns_; Next_ true; Scan_ holder true;
                          Close_; TimingKv_ "dbr.select" {["sql" := fullSql]}]
    /\ length (mem w') = length (mem w)
    /\ (forall l', l' <> l -> mem w' !! l' = mem w !! l')
    /\ forall j f, fields !! j = Some f -> exported f = true ->
         exists i c d v,
           fm !! i = Some (Some [j]) /\ cols !! i = Some c
           /\ matches NameMapping c (fieldSpec_of j f) = true
           /\ r !! i = Some d /\ convert (reflect.Type_ f) d = Ok v
           /\ read (mem w') l (path ++ [j]) = Some v.
Proof.
  intros pkg dest Hi Hq Hc Hfm Hcover Hread Hvals Hy Hlen Hconv.
  destruct (spec_calculateFieldMap_entries _ _ _ _ _ Hfm) as [Hlenfm Hentries].
  destruct (targets_exist fields l path fm) as (holder & Hholder & Hlenh).
  { intros i p Hp. destruct (Hentries i p Hp) as (j & f & c & ? & ? & _). eauto. }
  destruct (scan_targets NameMapping interpolate convert fields l path fm
              r (mem w) vals holder Hholder)
    as (h' & vals' & Hrow & Hread' & Hlen' & Hlenh' & Hfr & Hfields); [lia|done| |].
  { intros i p d Hp Hd.
    destruct (Hentries i p Hp) as (j & f & c & -> & Hf & _).
    destruct (Hconv i j f d Hp Hf Hd) as [v Hv]. by exists j, f, v. }
  assert (scan (pkg := pkg) r holder (mem w) = (h', None)) as Hscan.
  { unfold scan. rewrite decide_True by lia. exact Hrow. }
  exists (mkWorld h' (log w ++ [Query_ fullSql; Columns_; Next_ true;
                                Scan_ holder true; Close_;
                                TimingKv_ "dbr.select" {["sql" := fullSql]}])),
         holder.
  split.
  { unfold dest. erewrite (LoadOne_first_row (pkg := pkg)); try done.
    - by rewrite Hscan.
    - by rewrite Hscan. }
  split; [done|]. split; [done|]. split; [done|].
  intros j f Hf He. destruct (Hfields j) as [Hin _].
  destruct (Hin (Hcover j f Hf He)) as (i & d & f' & v & Hp & Hd & Hf' & Hv & Hval).
  simplify_eq.
  destruct (Hentries i [j] Hp) as (j' & f' & c & Hj & Hf' & _ & Hcol & Hm).
  simplify_eq.
  exists i, c, d, v. repeat split; try done. cbn [mem].
  rewrite (read_field _ _ _ _ _ Hread'). apply Hval.
  rewrite Hvals. by eapply lookup_lt_Some.
Qed.

Lemma LoadOne_populates_from_first_row_witness :
  exists w' holder,
    call (LoadOne (pkg := Example.collaborators)
            (Example.select Example.people) Example.person_address) Example.store
    = (Returned None, w')
    /\ log w' = [Query_ "SELECT id, name FROM people"; Columns_; Next_ true;
                 Scan_ holder true; Close_;
                 TimingKv_ "dbr.select" {["sql" := "SELECT id, name FROM people"]}]
    /\ count is_New (log w') = 0
    /\ count is_Next_true (log w') = 1
    /\ length (mem w') = 4
    /\ read (mem w') 1 [0] = Some (VData (DInt 1))
    /\ read (mem w') 1 [1] = Some (VData (DString "a")).
Proof.
  destruct (LoadOne_populates_from_first_row lower Example.interpolate
              Example.convert (Example.select Example.people)
              [reflect.Field "ID" "" "" (TBasic reflect.int64_);
               reflect.Field "Name" "" "" (TBasic reflect.string_)]
              1 [] [VData (DInt 7); VData (DString "z")] Example.store
              "SELECT id, name FROM people" Example.people ["id"; "name"]
              [Some [0]; Some [1]] [DInt 1; DString "a"]
              [[DInt 2; DString "b"]; [DInt 3; DString "c"]])
    as (w' & holder & Hcall & Hlog & Hlen & _ & Hfields).
  - reflexivity.
  - reflexivity.
  - reflexivity.
  - reflexivity.
  - intros [|[|j]] f Hf _; simplify_eq/=; rewrite !elem_of_cons; auto.
  - reflexivity.
  - reflexivity.
  - reflexivity.
  - reflexivity.
  - intros [|[|i]] j f d Hp Hf Hd; simplify_eq/=; by eexists.
  - exists w', holder. split; [exact Hcall|]. split; [exact Hlog|].
    split; [rewrite Hlog; reflexivity|]. split; [rewrite Hlog; reflexivity|].
    split; [exact Hlen|]. split.
    + destruct (Hfields 0 _ eq_refl eq_refl)
        as (i & c & d & v & Hp & _ & _ & Hd & Hv & Hr).
      destruct i as [|[|i]]; simplify_eq/=. exact Hr.
    + destruct (Hfields 1 _ eq_refl eq_refl)
        as (i & c & d & v & Hp & _ & _ & Hd & Hv & Hr).
      destruct i as [|[|i]]; simplify_eq/=. exact Hr.
Defined.

(** C7. In [LoadAll] into a slice, when building the holder or scanning
    fails on a row, the call returns at once with the error and the number
    of rows loaded before it: one more row was read than was counted, and
    no row after it.  When every row scans and the cursor reports an error
    at the end, the call returns that error with the number of all rows;
    into a map, where the loop is empty, with 0.  [holderFor] is any
    function whose targets lie in the record it is given. *)
Theorem LoadAll_partial_count {pkg : Collaborators}
    b fields l path es w fullSql rows cols fm :
  holders_within ->
  Interpolate (ToSql b).1 (ToSql b).2 = Ok fullSql ->
  runner_Query b fullSql = Ok rows ->
  Columns rows = Ok cols ->
  calculateFieldMap (TStruct fields) cols false = Ok fm ->
  read (mem w) l path = Some (VSlice es) ->
  let dest := Iface (TPtr (TSlice (TPtr (TStruct fields)))) (VPtr l path) in
  (forall pre bad post op err,
      yields rows = pre ++ bad :: post ->
      (forall i r, pre !! i = Some r ->
         row_error (TStruct fields) fm (length (mem w) + i) r = None) ->
      row_error (TStruct fields) fm (length (mem w) + length pre) bad
      = Some (op, err) ->
      exists w',
        call (LoadAll b dest) w
        = (Returned (length pre, Some (Tagged op {["sql" := fullSql]} err)), w')
        /\ count is_Next_true (log w') = count is_Next_true (log w) + length pre + 1)
  /\ (forall err,
      (forall i r, yields rows !! i = Some r ->
         row_error (TStruct fields) fm (length (mem w) + i) r = None) ->
      Err rows = Some err ->
      exists w',
        call (LoadAll b dest) w
        = (Returned (length (yields rows),
                     Some (Tagged "dbr.select.load_all.rows_err"
                             {["sql" := fullSql]} err)), w')
        /\ count is_Next_true (log w')
           = count is_Next_true (log w) + length (yields rows))
  /\ (forall map_dest valueOfDest recordType fm' err,
      LoadAll_dest (R := nat * option error) map_dest w
      = (Step (valueOfDest, reflect.Map, recordType), w) ->
      calculateFieldMap recordType cols false = Ok fm' ->
      Err rows = Some err ->
      exists w',
        call (LoadAll b map_dest) w
        = (Returned (0, Some (Tagged "dbr.select.load_all.rows_err"
                                {["sql" := fullSql]} err)), w')
        /\ count is_Next_true (log w') = count is_Next_true (log w)).
Proof.
  intros Hwithin Hi Hq Hc Hfm Hread dest. split; [|split].
  - intros pre bad post op err Hy Hpre Hbad.
    destruct (LoadAll_slice_fails Hwithin b fields l path es w fullSql rows cols fm
                pre bad post op err) as (w' & Hcall & _ & _ & Hn & _); try done.
    by exists w'.
  - intros err Hrows He.
    destruct (LoadAll_slice_loads Hwithin b fields l path es w fullSql rows cols fm)
      as (w' & Hcall & _ & _ & _ & _ & _ & Hn); try done.
    exists w'. rewrite He in Hcall. by split.
  - intros map_dest valueOfDest recordType fm' err Hd Hfm' He.
    rewrite (LoadAll_map b map_dest valueOfDest recordType w fullSql rows cols fm')
      by done.
    rewrite He. eexists. split; [reflexivity|].
    cbn [log]. rewrite !count_app. unfold count. simpl. lia.
Qed.

Lemma LoadAll_partial_count_witness :
  exists w',
    call (LoadAll (pkg := Example.collaborators)
            (Example.select Example.broken) Example.slice_address) Example.store
    = (Returned (1, Some (Tagged "dbr.select.load_all.scan"
                            {["sql" := "SELECT id, name FROM people"]}
                            (ErrCollaborator "sql: unsupported Scan"))), w')
    /\ count is_Next_true (log w') = 2.
Proof.
  destruct (LoadAll_partial_count (pkg := Example.collaborators)
              (Example.select Example.broken)
              [reflect.Field "ID" "" "" (TBasic reflect.int64_);
               reflect.Field "Name" "" "" (TBasic reflect.string_)]
              0 [] [] Example.store "SELECT id, name FROM people"
              Example.broken ["id"; "name"] [Some [0]; Some [1]])
    as (Hrow & _ & _).
  - apply spec_holders_within.
  - reflexivity.
  - reflexivity.
  - reflexivity.
  - reflexivity.
  - reflexivity.
  - apply (Hrow [[DInt 1; DString "a"]] [DInt 2; DNull] [[DInt 3; DString "c"]]).
    + reflexivity.
    + intros [|i] r Hr; simplify_eq/=; reflexivity.
    + reflexivity.
Defined.

(** C8 (the code does not do this). When [Interpolate] fails, [LoadOne] and
    [LoadValue] return its error as it is and tell the event sink nothing,
    while [LoadAll], on the same builder, passes it through [EventErr]. *)
Theorem interpolate_error_untagged :
  call (LoadOne (pkg := Example.collaborators) Example.mismatched
          Example.person_address) Example.store
  = (Returned (Some (ErrCollaborator "dbr: wrong number of arguments")),
     Example.store)
  /\ call (LoadValue (pkg := Example.collaborators) Example.mismatched
            Example.person_address) Example.store
     = (Returned (Some (ErrCollaborator "dbr: wrong number of arguments")),
        Example.store)
  /\ call (LoadAll (pkg := Example.collaborators) Example.mismatched
            Example.slice_address) Example.store
     = (Returned (0, Some (Tagged "dbr.select.load_all.interpolate" ∅
                             (ErrCollaborator "dbr: wrong number of arguments"))),
        mkWorld (mem Example.store)
          [EventErr_ "dbr.select.load_all.interpolate"
             (ErrCollaborator "dbr: wrong number of arguments")]).
Proof.
  split; [|split].
  - by apply (LoadOne_interpolate_fails (pkg := Example.collaborators)).
  - by apply (LoadValue_interpolate_fails (pkg := Example.collaborators)).
  - by apply (LoadAll_interpolate_fails (pkg := Example.collaborators)
                Example.mismatched Example.slice_address
                (Var (TSlice (TPtr Example.Person)) 0 [], reflect.Slice,
                 Example.Person)).
Qed.

(** C9. In [LoadAll] into a slice, when a row fails, the destination is
    what it was, records and length, although the count returned is the
    number of rows loaded before the failure: the records loaded so far
    were in [sliceValue] only, and [valueOfDest.Set] was not reached.  When
    every row scans, [Set] runs once, after the last row.  [holderFor] is
    any function whose targets lie in the record it is given. *)
Theorem LoadAll_failure_leaves_slice {pkg : Collaborators}
    b fields l path es w fullSql rows cols fm :
  holders_within ->
  Interpolate (ToSql b).1 (ToSql b).2 = Ok fullSql ->
  runner_Query b fullSql = Ok rows ->
  Columns rows = Ok cols ->
  calculateFieldMap (TStruct fields) cols false = Ok fm ->
  read (mem w) l path = Some (VSlice es) ->
  let dest := Iface (TPtr (TSlice (TPtr (TStruct fields)))) (VPtr l path) in
  (forall pre bad post op err,
      yields rows = pre ++ bad :: post ->
      (forall i r, pre !! i = Some r ->
         row_error (TStruct fields) fm (length (mem w) + i) r = None) ->
      row_error (TStruct fields) fm (length (mem w) + length pre) bad
      = Some (op, err) ->
      exists w' e,
        call (LoadAll b dest) w = (Returned (length pre, Some e), w')
        /\ read (mem w') l path = Some (VSlice es)
        /\ count is_Set (log w') = count is_Set (log w))
  /\ ((forall i r, yields rows !! i = Some r ->
         row_error (TStruct fields) fm (length (mem w) + i) r = None) ->
      exists w' e,
        call (LoadAll b dest) w = (Returned (length (yields rows), e), w')
        /\ read (mem w') l path
           = Some (VSlice (es ++ new_pointers (length (mem w)) (length (yields rows))))
        /\ count is_Set (log w') = count is_Set (log w) + 1).
Proof.
  intros Hwithin Hi Hq Hc Hfm Hread dest. split.
  - intros pre bad post op err Hy Hpre Hbad.
    destruct (LoadAll_slice_fails Hwithin b fields l path es w fullSql rows cols fm
                pre bad post op err) as (w' & Hcall & Hfr & Hs & _); try done.
    exists w', (Tagged op {["sql" := fullSql]} err).
    split; [done|]. split; [|done].
    unfold read in *. rewrite Hfr; [done|].
    destruct (mem w !! l) eqn:Hl; [|done]. by eapply lookup_lt_Some.
  - intros Hrows.
    destruct (LoadAll_slice_loads Hwithin b fields l path es w fullSql rows cols fm)
      as (w' & Hcall & Hdest & _ & _ & _ & Hs & _); try done.
    by exists w', (rows_err fullSql (Err rows)).
Qed.

Lemma LoadAll_failure_leaves_slice_witness :
  exists w' e,
    call (LoadAll (pkg := Example.collaborators)
            (Example.select Example.broken) Example.slice_address) Example.store
    = (Returned (1, Some e), w')
    /\ read (mem w') 0 [] = Some (VSlice [])
    /\ count is_Set (log w') = 0.
Proof.
  destruct (LoadAll_failure_leaves_slice (pkg := Example.collaborators)
              (Example.select Example.broken)
              [reflect.Field "ID" "" "" (TBasic reflect.int64_);
               reflect.Field "Name" "" "" (TBasic reflect.string_)]
              0 [] [] Example.store "SELECT id, name FROM people"
              Example.broken ["id"; "name"] [Some [0]; Some [1]])
    as [Hrow _].
  - apply spec_holders_within.
  - reflexivity.
  - reflexivity.
  - reflexivity.
  - reflexivity.
  - reflexivity.
  - apply (Hrow [[DInt 1; DString "a"]] [DInt 2; DNull] [[DInt 3; DString "c"]]
             "dbr.select.load_all.scan" (ErrCollaborator "sql: unsupported Scan")).
    + reflexivity.
    + intros [|i] r Hr; simplify_eq/=; reflexivity.
    + reflexivity.
Defined.

(** C10. [LoadValue] panics exactly when its destination is not a pointer.
    A pointer to anything, a structure included, goes on, and when the
    cursor yields a row it is that very destination, alone, that is handed
    to [Scan]. *)
Theorem LoadValue_panics_iff_not_pointer {pkg : Collaborators} :
  (forall b dest w,
      panics (call (LoadValue b dest) w)
      <-> Value_Kind (reflect_ValueOf dest) <> reflect.Ptr)
  /\ (forall b t v w fullSql rows r rest,
      Interpolate (ToSql b).1 (ToSql b).2 = Ok fullSql ->
      runner_Query b fullSql = Ok rows ->
      yields rows = r :: rest ->
      exists err w' evs,
        call (LoadValue b (Iface (TPtr t) v)) w = (Returned err, w')
        /\ log w' = log w ++ [Query_ fullSql; Next_ true;
                              Scan_ [Iface (TPtr t) v] (bool_decide (err = None))]
                          ++ evs).
Proof.
  split.
  - intros b dest w. split.
    + intros (msg & w' & Hp) Hk.
      destruct (Kind_Ptr_inv dest Hk) as (t & v & ->).
      destruct (LoadValue_pointer_returns b t v w) as (r & w'' & Hr). congruence.
    + intros Hk. destruct (LoadValue_not_pointer b dest w Hk) as [msg Hp].
      by exists msg, w.
  - intros. by eapply LoadValue_scans.
Qed.

Lemma LoadValue_panics_iff_not_pointer_witness :
  ~ panics (call (LoadValue (pkg := Example.collaborators)
                    (Example.select Example.people) Example.person_address)
              Example.store)
  /\ exists err w' evs,
       call (LoadValue (pkg := Example.collaborators)
               (Example.select Example.people) Example.person_address) Example.store
       = (Returned err, w')
       /\ log w' = [Query_ "SELECT id, name FROM people"; Next_ true;
                    Scan_ [Example.person_address] (bool_decide (err = None))] ++ evs.
Proof.
  destruct (LoadValue_panics_iff_not_pointer (pkg := Example.collaborators))
    as [Hiff Hscan].
  split.
  - intros Hp. apply Hiff in Hp. apply Hp. reflexivity.
  - apply (Hscan (Example.select Example.people) Example.Person (VPtr 1 [])
             Example.store "SELECT id, name FROM people" Example.people
             [DInt 1; DString "a"] [[DInt 2; DString "b"]; [DInt 3; DString "c"]]);
      reflexivity.
Defined.
